(** * create_license.py: the third-party license report generator

    A shallow embedding of the script [create_license.py] and the
    properties of its report.  The script runs [cargo bundle-licenses],
    parses the JSON it prints, picks one permissible license per
    dependency and writes the file [THIRD_PARTY_LIBRARY_LICENSES].

    The script is effectful: it opens and writes a file, prints to
    [sys.stderr] and leaves through [sys.exit] or an exception that nobody
    catches.  These effects are threaded through a small state and
    exception monad, [Script].  A write to the file encodes its text and
    raises when the encoding of the file lacks one of its characters. *)

From Stdlib Require Import String Ascii List ZArith Lia Bool Permutation.
Import ListNotations.

Local Open Scope list_scope.
Local Open Scope string_scope.

(** ** Data: the parsed output of [cargo bundle-licenses --format json] *)

(** One element of a dependency's ['licenses'] array: the keys ['license']
    and ['text'], both strings. *)
Record LicenseEntry : Type := {
  license : string;
  text : string
}.

(** One element of ['third_party_libraries']: the keys ['package_name'] and
    ['licenses']. *)
Record Library : Type := {
  package_name : string;
  licenses : list LicenseEntry
}.

(** The document [json.loads] returns, typed after the shape the tool
    prints: a document of another shape is not a value of this type. *)
Record Bundle : Type := {
  third_party_libraries : list Library
}.

(** [subprocess.run(..., capture_output=True)]: what the script reads of the
    finished child process. *)
Record CompletedProcess : Type := {
  returncode : Z;
  stdout : string
}.

(** The line feed, ['\n']. *)
Definition LF : string := String (ascii_of_nat 10) EmptyString.

(** [permissible_licenses = ['MIT']], an ordered list. *)
Definition permissible_licenses : list string := ["MIT"].

(** ** Effects *)

(** What the script can change: the content of the file
    [THIRD_PARTY_LIBRARY_LICENSES] ([None] while the file does not exist)
    and the text the script has printed to [sys.stderr]. *)
Record World : Type := {
  out_file : option string;
  err : string
}.

(** The exceptions of lines 8 to 10 and the one a write to the file raises;
    the script catches none of them. *)
Inductive Exn : Type :=
| CalledProcessError (code : Z)
| JSONDecodeError
| UnicodeEncodeError.

(** How a piece of the script ends: it falls through with a value, it calls
    [sys.exit(code)], or it raises. *)
Inductive Outcome (A : Type) : Type :=
| Done (a : A)
| SystemExit (code : Z)
| Uncaught (e : Exn).

Arguments Done {A} a.
Arguments SystemExit {A} code.
Arguments Uncaught {A} e.

Definition Script (A : Type) : Type := World -> Outcome A * World.

Definition ret {A : Type} (a : A) : Script A := fun w => (Done a, w).

Definition bind {A B : Type} (m : Script A) (k : A -> Script B) : Script B :=
  fun w =>
    match m w with
    | (Done a, w') => k a w'
    | (SystemExit c, w') => (SystemExit c, w')
    | (Uncaught e, w') => (Uncaught e, w')
    end.

Declare Scope script_scope.
Delimit Scope script_scope with script.
Notation "m ;; k" := (bind m (fun _ => k))
  (at level 61, right associativity) : script_scope.
Local Open Scope script_scope.

(** [sys.exit(code)]. *)
Definition sys_exit {A : Type} (code : Z) : Script A :=
  fun w => (SystemExit code, w).

(** [raise e]. *)
Definition raise {A : Type} (e : Exn) : Script A :=
  fun w => (Uncaught e, w).

(** [open('THIRD_PARTY_LIBRARY_LICENSES', mode='w')]: the file is created,
    or emptied when it exists. *)
Definition open_w : Script unit :=
  fun w => (Done tt, {| out_file := Some ""; err := err w |}).

(** The encoding of the file.  [open] names none, so it is the one of the
    locale.  A character of the model is an [ascii]: with the high bit
    clear it is an ASCII character, which every such encoding has; each of
    the others stands for a character outside ASCII, and [codec] tells
    which of them the encoding has. *)
Definition can_encode (codec : ascii -> bool) (c : ascii) : bool :=
  let 'Ascii _ _ _ _ _ _ _ high := c in negb high || codec c.

Fixpoint encodable (codec : ascii -> bool) (s : string) : bool :=
  match s with
  | EmptyString => true
  | String c s' => can_encode codec c && encodable codec s'
  end.

(** [f.write(s)] on the open file: the text is encoded as a whole, and
    nothing of it is written when a character cannot be encoded. *)
Definition f_write (codec : ascii -> bool) (s : string) : Script unit :=
  fun w =>
    if encodable codec s
    then (Done tt,
          {| out_file := option_map (fun c => c ++ s) (out_file w);
             err := err w |})
    else (Uncaught UnicodeEncodeError, w).

(** [print(s, file=sys.stderr)]: the text and a line feed.  The standard
    error stream escapes what it cannot encode, so this never raises. *)
Definition print_err (s : string) : Script unit :=
  fun w => (Done tt, {| out_file := out_file w; err := err w ++ s ++ LF |}).

(** The exit status the shell sees: 0 at the end of the script, the
    argument of [sys.exit], 1 for an exception that reaches the top. *)
Definition exit_status {A : Type} (o : Outcome A) : Z :=
  match o with
  | Done _ => 0
  | SystemExit c => c
  | Uncaught _ => 1
  end.

(** ** The script *)

(** Lines 20 to 28: [package_license] and [license_text] start as [''];
    the loop over the permissible licenses filters the dependency's
    licenses by [x['license'] == p] and, at the first [p] whose filtered
    list is not empty, takes its element 0 and breaks. *)
Fixpoint select (ps : list string) (ls : list LicenseEntry) : string * string :=
  match ps with
  | [] => ("", "")
  | p :: ps' =>
      match filter (fun x => String.eqb (license x) p) ls with
      | [] => select ps' ls
      | x :: _ => (license x, text x)
      end
  end.

(** Lines 14 to 35, the body of the loop over the dependencies. *)
Definition body (codec : ascii -> bool) (ps : list string) (lib : Library)
    : Script unit :=
  let package_name := package_name lib in
  let licenses := licenses lib in
  (if Nat.eqb (length licenses) 0
   then print_err ("Error: " ++ package_name ++ " has no licenses") ;;
        sys_exit 1
   else ret tt) ;;
  let '(package_license, license_text) := select ps licenses in
  (if String.eqb package_license ""
   then print_err ("Error: " ++ package_name ++ " has no permissible licenses") ;;
        sys_exit 1
   else ret tt) ;;
  f_write codec ("## " ++ package_name ++ LF ++ LF) ;;
  f_write codec (package_license ++ LF ++ LF) ;;
  f_write codec (license_text ++ LF ++ LF ++ LF).

(** [for x in l: body(x)]. *)
Fixpoint for_each {A : Type} (b : A -> Script unit) (l : list A) : Script unit :=
  match l with
  | [] => ret tt
  | x :: l' => b x ;; for_each b l'
  end.

(** Line 12, the text of the first write. *)
Definition header : string := "# Thiard party library licenses" ++ LF ++ LF.

(** Lines 11 to 35: the [with open(...)] block, over the list
    [bundle_licenses['third_party_libraries']].  Leaving the block, by its
    end, by [sys.exit] or by an exception, closes the file with everything
    written so far. *)
Definition write_report (codec : ascii -> bool) (ps : list string)
    (libs : list Library) : Script unit :=
  open_w ;;
  f_write codec header ;;
  for_each (body codec ps) libs.

(** The whole script.  [json_loads] is Python's [json.loads], [None] where
    it raises; [cp] is what [subprocess.run] returns before [check=True]
    looks at the return code. *)
Definition script (codec : ascii -> bool) (ps : list string)
    (json_loads : string -> option Bundle) (cp : CompletedProcess)
    : Script unit :=
  (if Z.eqb (returncode cp) 0 then ret tt
   else raise (CalledProcessError (returncode cp))) ;;
  match json_loads (stdout cp) with
  | None => raise JSONDecodeError
  | Some bundle_licenses =>
      write_report codec ps (third_party_libraries bundle_licenses)
  end.

Definition main (codec : ascii -> bool) := script codec permissible_licenses.

(** ** What the report holds *)

(** The three writes of one pass of the loop, lines 33 to 35, as one
    text. *)
Definition block (ps : list string) (lib : Library) : string :=
  let '(package_license, license_text) := select ps (licenses lib) in
  ("## " ++ package_name lib ++ LF ++ LF)
  ++ (package_license ++ LF ++ LF)
  ++ (license_text ++ LF ++ LF ++ LF).

(** The two tests of the loop body, lines 16 and 29: the pass reaches the
    writes when both are false. *)
Definition passes (ps : list string) (lib : Library) : bool :=
  negb (Nat.eqb (length (licenses lib)) 0)
  && negb (String.eqb (fst (select ps (licenses lib))) "").

(** One entry of the report: the three values a pass of the loop writes. *)
Record Entry : Type := {
  entry_package : string;
  entry_license : string;
  entry_text : string
}.

Definition entry_of (ps : list string) (lib : Library) : Entry :=
  {| entry_package := package_name lib;
     entry_license := fst (select ps (licenses lib));
     entry_text := snd (select ps (licenses lib)) |}.

Definition render (e : Entry) : string :=
  ("## " ++ entry_package e ++ LF ++ LF)
  ++ (entry_license e ++ LF ++ LF)
  ++ (entry_text e ++ LF ++ LF ++ LF).

(** The three writes of an entry all find their text in the encoding. *)
Definition writable (codec : ascii -> bool) (e : Entry) : bool :=
  encodable codec ("## " ++ entry_package e ++ LF ++ LF)
  && encodable codec (entry_license e ++ LF ++ LF)
  && encodable codec (entry_text e ++ LF ++ LF ++ LF).

(** What a pass whose writes end in an exception has put in the file: the
    heading if it can be encoded, and then the license line if it can. *)
Definition begun (codec : ascii -> bool) (e : Entry) : string :=
  if encodable codec ("## " ++ entry_package e ++ LF ++ LF)
  then ("## " ++ entry_package e ++ LF ++ LF)
       ++ (if encodable codec (entry_license e ++ LF ++ LF)
           then entry_license e ++ LF ++ LF
           else "")
  else "".

(** A pass that gets to its end: both tests false, three writes done. *)
Definition completes (codec : ascii -> bool) (ps : list string) (lib : Library)
    : bool :=
  passes ps lib && writable codec (entry_of ps lib).

(** The entries the loop has written in full when it stops: one per
    dependency, in order, up to the first dependency whose pass does not
    get to its end. *)
Fixpoint entries (codec : ascii -> bool) (ps : list string)
    (libs : list Library) : list Entry :=
  match libs with
  | [] => []
  | lib :: libs' =>
      if completes codec ps lib
      then entry_of ps lib :: entries codec ps libs'
      else []
  end.

(** A dependency is permitted when one of its licenses carries an
    identifier of the allow-list. *)
Definition permitted (ps : list string) (lib : Library) : Prop :=
  exists e, In e (licenses lib) /\ In (license e) ps.

Definition permittedb (ps : list string) (lib : Library) : bool :=
  existsb (fun e => existsb (String.eqb (license e)) ps) (licenses lib).

(** The text of a list of chunks written one after the other. *)
Definition cat (l : list string) : string := fold_right String.append "" l.

(** The shape of every result of [select]: either an identifier [p] of the
    allow-list with nothing before it in the allow-list among the licenses,
    taken from the first license entry that carries [p]; or no identifier
    of the allow-list among the licenses and the two empty strings. *)
Inductive Selected (ps : list string) (ls : list LicenseEntry)
  : string * string -> Prop :=
| SelFound ps1 p ps2 pre e post :
    ps = (ps1 ++ p :: ps2)%list ->
    ls = (pre ++ e :: post)%list ->
    license e = p ->
    (forall q, In q ps1 -> forall x, In x ls -> license x <> q) ->
    (forall x, In x pre -> license x <> p) ->
    Selected ps ls (p, text e)
| SelNone :
    (forall q, In q ps -> forall x, In x ls -> license x <> q) ->
    Selected ps ls ("", "").

(** The line a failing pass prints, lines 17 and 18 or lines 30 and 31. *)
Definition diagnostic (lib : Library) : string :=
  if Nat.eqb (length (licenses lib)) 0
  then "Error: " ++ package_name lib ++ " has no licenses"
  else "Error: " ++ package_name lib ++ " has no permissible licenses".

(** ** Sample inputs *)

Definition mit_entry : LicenseEntry := {| license := "MIT"; text := "MIT TEXT" |}.
Definition apache_entry : LicenseEntry :=
  {| license := "Apache-2.0"; text := "APACHE TEXT" |}.
Definition gpl_entry : LicenseEntry := {| license := "GPL-3.0"; text := "..." |}.

Definition foo : Library := {| package_name := "foo"; licenses := [mit_entry] |}.
Definition bar : Library := {| package_name := "bar"; licenses := [] |}.
Definition baz : Library := {| package_name := "baz"; licenses := [gpl_entry] |}.
Definition dual : Library :=
  {| package_name := "dual"; licenses := [mit_entry; apache_entry] |}.

(** A fresh directory and nothing printed yet. *)
Definition fresh : World := {| out_file := None; err := "" |}.

(** A directory that holds a report of an earlier run. *)
Definition stale : World := {| out_file := Some "old report"; err := "" |}.

(** The encoding of the C locale: ASCII and nothing else. *)
Definition ascii_only : ascii -> bool := fun _ => false.

(** An encoding that has every character of the model. *)
Definition every_character : ascii -> bool := fun _ => true.

(** A dependency under the MIT license whose license text has a character
    outside ASCII. *)
Definition cafe : Library :=
  {| package_name := "cafe";
     licenses := [{| license := "MIT";
                     text := "caf" ++ String (ascii_of_nat 233) "" |}] |}.

(** A dependency with two entries under the same permissible identifier. *)
Definition twice : Library :=
  {| package_name := "twice";
     licenses := [gpl_entry;
                  {| license := "MIT"; text := "FIRST TEXT" |};
                  {| license := "MIT"; text := "SECOND TEXT" |}] |}.

(** The allow-list of scenario D. *)
Definition extended_licenses : list string := ["Apache-2.0"; "MIT"].

(** ** The script on the document as [json.loads] returns it

    Python checks no shape: the document is whatever JSON value the command
    printed, and every subscript, [len] and loop of the script may raise on
    it.  The definitions below follow the script over such values; the
    typed definitions above are what they come to on a document of the
    shape the command prints. *)

(** A parsed JSON value.  A number is kept as its literal: the script never
    computes with one.  An object is the [dict] built by the parser, every
    key once, in the order of insertion. *)
#[warnings="-register-all"]
Inductive Json : Type :=
| JNull
| JBool (b : bool)
| JNum (literal : string)
| JStr (s : string)
| JArr (items : list Json)
| JObj (members : list (string * Json)).

(** The exceptions of the script: those of the typed script and the two a
    value of the wrong shape raises. *)
Inductive PyError : Type :=
| Early (e : Exn)
| KeyError (key : string)
| TypeError.

Inductive Result (A : Type) : Type :=
| Returned (a : A)
| Exited (code : Z)
| Raised (e : PyError).

Arguments Returned {A} a.
Arguments Exited {A} code.
Arguments Raised {A} e.

Definition Run (A : Type) : Type := World -> Result A * World.

Definition ret_run {A : Type} (a : A) : Run A := fun w => (Returned a, w).

Definition bind_run {A B : Type} (m : Run A) (k : A -> Run B) : Run B :=
  fun w =>
    match m w with
    | (Returned a, w') => k a w'
    | (Exited c, w') => (Exited c, w')
    | (Raised e, w') => (Raised e, w')
    end.

Declare Scope run_scope.
Delimit Scope run_scope with run.
Notation "x <- m ;; k" := (bind_run m (fun x => k))
  (at level 61, m at next level, right associativity) : run_scope.
Notation "m ;; k" := (bind_run m (fun _ => k))
  (at level 61, right associativity) : run_scope.
Local Open Scope run_scope.

(** A step of the typed script, run as it is. *)
Definition lift {A : Type} (m : Script A) : Run A :=
  fun w =>
    match m w with
    | (Done a, w') => (Returned a, w')
    | (SystemExit c, w') => (Exited c, w')
    | (Uncaught e, w') => (Raised (Early e), w')
    end.

(** An expression that yields a value or raises. *)
Definition eval {A : Type} (r : PyError + A) : Run A :=
  fun w =>
    match r with
    | inl e => (Raised e, w)
    | inr a => (Returned a, w)
    end.

Definition exit_status_run {A : Type} (r : Result A) : Z :=
  match r with
  | Returned _ => 0
  | Exited c => c
  | Raised _ => 1
  end.

(** [d[k]] on a [dict]. *)
Fixpoint member (k : string) (kv : list (string * Json)) : option Json :=
  match kv with
  | [] => None
  | (k', v) :: kv' => if String.eqb k' k then Some v else member k kv'
  end.

(** [v[k]] with a string [k]: the value under the key of a [dict],
    [KeyError] without the key, [TypeError] on every other value. *)
Definition subscript (v : Json) (k : string) : PyError + Json :=
  match v with
  | JObj kv =>
      match member k kv with
      | Some x => inr x
      | None => inl (KeyError k)
      end
  | _ => inl TypeError
  end.

(** [for x in v]: the items of a list, the keys of a [dict], the characters
    of a string; [TypeError] on every other value. *)
Definition iter (v : Json) : PyError + list Json :=
  match v with
  | JArr l => inr l
  | JObj kv => inr (map (fun kx => JStr (fst kx)) kv)
  | JStr s => inr (map (fun c => JStr (String c "")) (list_ascii_of_string s))
  | _ => inl TypeError
  end.

(** [len(v)], likewise. *)
Definition len (v : Json) : PyError + nat :=
  match v with
  | JArr l => inr (length l)
  | JObj kv => inr (length kv)
  | JStr s => inr (String.length s)
  | _ => inl TypeError
  end.

(** [v == p] with a string [p]: only an equal string is equal. *)
Definition eq_str (v : Json) (p : string) : bool :=
  match v with
  | JStr s => String.eqb s p
  | _ => false
  end.

(** [f'{v}']: a string as it is; [other] stands for Python's [str] on the
    other values. *)
Definition fmt (other : Json -> string) (v : Json) : string :=
  match v with
  | JStr s => s
  | _ => other v
  end.

(** Lines 23 and 24, [list(filter(lambda x: x['license'] == p, licenses))]:
    the test runs on every item, in order, and the first item it raises on
    ends the whole expression. *)
Fixpoint filter_license (p : string) (xs : list Json) : PyError + list Json :=
  match xs with
  | [] => inr []
  | x :: xs' =>
      match subscript x "license" with
      | inl e => inl e
      | inr v =>
          match filter_license p xs' with
          | inl e => inl e
          | inr r => inr (if eq_str v p then x :: r else r)
          end
      end
  end.

(** Lines 20 to 28 on a value [licenses] that line 16 has found to have a
    length. *)
Fixpoint select_run (ps : list string) (licenses : Json) : PyError + (Json * Json) :=
  match ps with
  | [] => inr (JStr "", JStr "")
  | p :: ps' =>
      match iter licenses with
      | inl e => inl e
      | inr xs =>
          match filter_license p xs with
          | inl e => inl e
          | inr [] => select_run ps' licenses
          | inr (x :: _) =>
              match subscript x "license" with
              | inl e => inl e
              | inr package_license =>
                  match subscript x "text" with
                  | inl e => inl e
                  | inr license_text => inr (package_license, license_text)
                  end
              end
          end
      end
  end.

(** Lines 14 to 35. *)
Definition body_run (codec : ascii -> bool) (other : Json -> string)
    (ps : list string) (lib : Json) : Run unit :=
  package_name <- eval (subscript lib "package_name") ;;
  licenses <- eval (subscript lib "licenses") ;;
  n <- eval (len licenses) ;;
  (if Nat.eqb n 0
   then lift (print_err ("Error: " ++ fmt other package_name
                         ++ " has no licenses")) ;;
        lift (sys_exit 1)
   else ret_run tt) ;;
  chosen <- eval (select_run ps licenses) ;;
  (if eq_str (fst chosen) ""
   then lift (print_err ("Error: " ++ fmt other package_name
                         ++ " has no permissible licenses")) ;;
        lift (sys_exit 1)
   else ret_run tt) ;;
  lift (f_write codec ("## " ++ fmt other package_name ++ LF ++ LF)) ;;
  lift (f_write codec (fmt other (fst chosen) ++ LF ++ LF)) ;;
  lift (f_write codec (fmt other (snd chosen) ++ LF ++ LF ++ LF)).

Fixpoint for_each_run {A : Type} (b : A -> Run unit) (l : list A) : Run unit :=
  match l with
  | [] => ret_run tt
  | x :: l' => b x ;; for_each_run b l'
  end.

(** Lines 11 to 35: the header is written before line 13 looks for the key
    [third_party_libraries]. *)
Definition write_report_run (codec : ascii -> bool) (other : Json -> string)
    (ps : list string) (bundle_licenses : Json) : Run unit :=
  lift open_w ;;
  lift (f_write codec header) ;;
  libs <- eval (subscript bundle_licenses "third_party_libraries") ;;
  items <- eval (iter libs) ;;
  for_each_run (body_run codec other ps) items.

(** The whole script, [json_loads] now giving the document itself. *)
Definition script_run (codec : ascii -> bool) (other : Json -> string)
    (ps : list string) (json_loads : string -> option Json)
    (cp : CompletedProcess) : Run unit :=
  (if Z.eqb (returncode cp) 0 then ret_run tt
   else eval (inl (Early (CalledProcessError (returncode cp))))) ;;
  match json_loads (stdout cp) with
  | None => eval (inl (Early JSONDecodeError))
  | Some bundle_licenses => write_report_run codec other ps bundle_licenses
  end.

Definition main_run (codec : ascii -> bool) (other : Json -> string) :=
  script_run codec other permissible_licenses.

(** *** Documents of the shape the command prints *)

Fixpoint traverse {A B : Type} (f : A -> option B) (l : list A) : option (list B) :=
  match l with
  | [] => Some []
  | x :: l' =>
      match f x, traverse f l' with
      | Some y, Some r => Some (y :: r)
      | _, _ => None
      end
  end.

(** An object with strings under [license] and [text], whatever else it
    holds. *)
Definition entry_of_json (v : Json) : option LicenseEntry :=
  match subscript v "license", subscript v "text" with
  | inr (JStr l), inr (JStr t) => Some {| license := l; text := t |}
  | _, _ => None
  end.

(** An object with a string under [package_name] and a list of such
    entries under [licenses]. *)
Definition library_of_json (v : Json) : option Library :=
  match subscript v "package_name", subscript v "licenses" with
  | inr (JStr n), inr (JArr ls) =>
      option_map (fun es => {| package_name := n; licenses := es |})
                 (traverse entry_of_json ls)
  | _, _ => None
  end.

(** An object with a list of such libraries under
    [third_party_libraries]. *)
Definition bundle_of_json (v : Json) : option Bundle :=
  match subscript v "third_party_libraries" with
  | inr (JArr l) =>
      option_map (fun libs => {| third_party_libraries := libs |})
                 (traverse library_of_json l)
  | _ => None
  end.

(** [json.loads] seen through the shape. *)
Definition typed_loads (json_loads : string -> option Json) (s : string)
    : option Bundle :=
  match json_loads s with
  | Some doc => bundle_of_json doc
  | None => None
  end.

(** The exceptions a value of the wrong shape raises. *)
Definition shape_error (e : PyError) : Prop :=
  e = TypeError \/ exists k, e = KeyError k.

(** *** Sample documents *)

Definition mit_json : Json :=
  JObj [("license", JStr "MIT"); ("text", JStr "MIT TEXT")].

(** A document as the command prints it, with keys the script does not
    read. *)
Definition sample_document : Json :=
  JObj [("root_name", JStr "app");
        ("third_party_libraries",
         JArr [JObj [("package_name", JStr "foo");
                     ("package_version", JStr "1.0.0");
                     ("license", JStr "MIT");
                     ("licenses", JArr [mit_json])]])].

(** A document without the key [third_party_libraries]. *)
Definition keyless_document : Json := JObj [("root_name", JStr "app")].

(** A document with no dependency. *)
Definition empty_document : Json :=
  JObj [("root_name", JStr "app"); ("third_party_libraries", JArr [])].

(** A document whose one dependency is under the MIT license with a
    license text outside ASCII. *)
Definition cafe_document : Json :=
  JObj [("third_party_libraries",
         JArr [JObj [("package_name", JStr "cafe");
                     ("licenses",
                      JArr [JObj [("license", JStr "MIT");
                                  ("text",
                                   JStr ("caf" ++ String (ascii_of_nat 233) ""))]])]])].

(** A dependency whose second license entry is [null]. *)
Definition odd_library : Json :=
  JObj [("package_name", JStr "odd"); ("licenses", JArr [mit_json; JNull])].

(** A stand-in for Python's [str] on values that are not strings. *)
Definition no_text (v : Json) : string := "?".

(** A successful command that printed nothing of interest to the model:
    the sample loaders below ignore the text. *)
Definition success : CompletedProcess := {| returncode := 0; stdout := "" |}.

(** * Proofs *)
(** ** Strings *)

Lemma append_nil_r (s : string) : s ++ "" = s.
Proof. induction s as [|c s IH]; simpl; [reflexivity | now rewrite IH]. Qed.

Lemma append_assoc (a b c : string) : (a ++ b) ++ c = a ++ (b ++ c).
Proof. induction a as [|x a IH]; simpl; [reflexivity | now rewrite IH]. Qed.

Lemma render_entry_of (ps : list string) (lib : Library) :
  render (entry_of ps lib) = block ps lib.
Proof.
  unfold render, entry_of, block; simpl.
  now destruct (select ps (licenses lib)).
Qed.

(** ** The choice of a license *)

Section Filter.
Context {A : Type} (f : A -> bool).

Lemma filter_head_split (l : list A) (x : A) (r : list A) :
  filter f l = x :: r ->
  exists pre post,
    l = (pre ++ x :: post)%list /\ Forall (fun y => f y = false) pre
    /\ f x = true.
Proof.
  induction l as [|y l IH]; simpl; [discriminate|].
  destruct (f y) eqn:Hy.
  - intros H; injection H as -> _.
    exists [], l. repeat split; [constructor | exact Hy].
  - intros H. destruct (IH H) as (pre & post & -> & Hpre & Hx).
    exists (y :: pre), post. repeat split; [constructor; assumption | exact Hx].
Qed.

Lemma filter_nil_none (l : list A) :
  filter f l = [] -> forall y, In y l -> f y = false.
Proof.
  induction l as [|z l IH]; simpl; [contradiction|].
  destruct (f z) eqn:Hz; [discriminate|].
  intros H y [<- | Hy]; [exact Hz | now apply IH].
Qed.
End Filter.

Lemma select_Selected (ps : list string) (ls : list LicenseEntry) :
  Selected ps ls (select ps ls).
Proof.
  induction ps as [|p ps IH]; simpl.
  - apply SelNone. intros q [].
  - destruct (filter (fun x => String.eqb (license x) p) ls) as [|e r] eqn:Hf.
    + pose proof (filter_nil_none _ _ Hf) as Hnone.
      assert (Hp : forall x, In x ls -> license x <> p).
      { intros x Hx. apply String.eqb_neq. now apply Hnone. }
      inversion IH as [ps1 q ps2 pre e post Hps Hls He Hbefore Hpre Heq | Hno Heq].
      * apply (SelFound _ _ (p :: ps1) q ps2 pre e post); try assumption.
        -- now rewrite Hps.
        -- intros q' [<- | Hq']; [exact Hp | now apply Hbefore].
      * apply SelNone. intros q [<- | Hq]; [exact Hp | now apply Hno].
    + destruct (filter_head_split _ _ _ _ Hf) as (pre & post & Hls & Hpre & He).
      apply String.eqb_eq in He. rewrite He.
      apply (SelFound _ _ [] p ps pre e post); try assumption; try reflexivity.
      * intros q [].
      * intros x Hx. apply String.eqb_neq.
        rewrite Forall_forall in Hpre. now apply Hpre.
Qed.

Lemma permittedb_spec (ps : list string) (lib : Library) :
  permittedb ps lib = true <-> permitted ps lib.
Proof.
  unfold permittedb, permitted. rewrite existsb_exists.
  split; intros (e & He & Hp); exists e; split; try assumption.
  - apply existsb_exists in Hp as (q & Hq & Heq).
    apply String.eqb_eq in Heq. now rewrite Heq.
  - apply existsb_exists. exists (license e). split; [assumption|].
    apply String.eqb_refl.
Qed.

Lemma select_not_permitted (ps : list string) (lib : Library) :
  ~ permitted ps lib -> select ps (licenses lib) = ("", "").
Proof.
  intros Hno.
  destruct (select_Selected ps (licenses lib))
    as [ps1 p ps2 pre e post Hps Hls He _ _ | _]; [|reflexivity].
  exfalso. apply Hno. exists e. split.
  - rewrite Hls. apply in_or_app. right. now left.
  - rewrite He, Hps. apply in_or_app. right. now left.
Qed.

Lemma select_permitted (ps : list string) (lib : Library) :
  permitted ps lib -> In (fst (select ps (licenses lib))) ps.
Proof.
  intros (e & He & Hp).
  destruct (select_Selected ps (licenses lib))
    as [ps1 p ps2 pre e' post Hps Hls He' _ _ | Hnone]; simpl.
  - rewrite Hps. apply in_or_app. right. now left.
  - exfalso. exact (Hnone _ Hp _ He eq_refl).
Qed.

Lemma permitted_licenses (ps : list string) (lib : Library) :
  permitted ps lib -> licenses lib <> [].
Proof. intros (e & He & _) Hnil. now rewrite Hnil in He. Qed.

(** ** Writes *)

Lemma encodable_app (codec : ascii -> bool) (a b : string) :
  encodable codec (a ++ b) = encodable codec a && encodable codec b.
Proof.
  induction a as [|c a IH]; simpl; [reflexivity|].
  now rewrite IH, andb_assoc.
Qed.

(** The header is ASCII: every encoding has it. *)
Lemma header_encodable (codec : ascii -> bool) : encodable codec header = true.
Proof. reflexivity. Qed.

Lemma world_append_nil (w : World) :
  {| out_file := option_map (fun x => x ++ "") (out_file w); err := err w |} = w.
Proof.
  destruct w as [[c|] e]; simpl; [|reflexivity]. now rewrite append_nil_r.
Qed.

(** Three writes in a row: all three texts in the file, or the texts before
    the first that cannot be encoded and the exception. *)
Lemma three_writes (codec : ascii -> bool) (a b c : string) (w : World) :
  (f_write codec a ;; f_write codec b ;; f_write codec c)%script w
  = if encodable codec a && encodable codec b && encodable codec c
    then (Done tt,
          {| out_file := option_map (fun x => x ++ a ++ b ++ c) (out_file w);
             err := err w |})
    else (Uncaught UnicodeEncodeError,
          {| out_file :=
               option_map
                 (fun x => x ++ (if encodable codec a
                                 then a ++ (if encodable codec b then b else "")
                                 else ""))
                 (out_file w);
             err := err w |}).
Proof.
  unfold bind, f_write.
  destruct (encodable codec a); cbn [andb].
  - destruct (encodable codec b); cbn [andb out_file err].
    + destruct (encodable codec c); cbn [out_file err];
        destruct (out_file w) as [x|]; cbn [option_map]; try reflexivity;
        now rewrite !append_assoc.
    + destruct (out_file w) as [x|]; cbn [option_map]; try reflexivity.
      now rewrite append_nil_r.
  - now rewrite world_append_nil.
Qed.

(** ** One pass of the loop *)

Lemma ret_then {A : Type} (k : Script A) (w : World) :
  (ret tt ;; k)%script w = k w.
Proof. reflexivity. Qed.

Lemma body_passes (codec : ascii -> bool) (ps : list string) (lib : Library)
    (w : World) :
  passes ps lib = true ->
  body codec ps lib w
  = if writable codec (entry_of ps lib)
    then (Done tt,
          {| out_file := option_map (fun c => c ++ block ps lib) (out_file w);
             err := err w |})
    else (Uncaught UnicodeEncodeError,
          {| out_file :=
               option_map (fun c => c ++ begun codec (entry_of ps lib))
                          (out_file w);
             err := err w |}).
Proof.
  unfold passes, body, block, writable, begun, entry_of. intros H.
  apply andb_true_iff in H as [Hlen Hsel].
  apply negb_true_iff in Hlen. apply negb_true_iff in Hsel.
  cbn [entry_package entry_license entry_text].
  rewrite Hlen. destruct (select ps (licenses lib)) as [pl lt].
  cbn [fst snd] in *. rewrite Hsel.
  rewrite !ret_then.
  rewrite three_writes.
  destruct (encodable codec ("## " ++ package_name lib ++ LF ++ LF));
    destruct (encodable codec (pl ++ LF ++ LF));
    destruct (encodable codec (lt ++ LF ++ LF ++ LF)); reflexivity.
Qed.

Lemma body_no_licenses (codec : ascii -> bool) (ps : list string)
    (lib : Library) (w : World) :
  licenses lib = [] ->
  body codec ps lib w =
    (SystemExit 1,
     {| out_file := out_file w;
        err := err w ++ ("Error: " ++ package_name lib ++ " has no licenses")
                     ++ LF |}).
Proof. unfold body. intros ->. reflexivity. Qed.

Lemma body_no_permissible (codec : ascii -> bool) (ps : list string)
    (lib : Library) (w : World) :
  licenses lib <> [] ->
  fst (select ps (licenses lib)) = "" ->
  body codec ps lib w =
    (SystemExit 1,
     {| out_file := out_file w;
        err := err w
               ++ ("Error: " ++ package_name lib ++ " has no permissible licenses")
               ++ LF |}).
Proof.
  unfold body. intros Hne Hsel.
  destruct (licenses lib) as [|l ls] eqn:Hl; [contradiction|]. simpl length.
  cbn [Nat.eqb]. destruct (select ps (l :: ls)) as [pl lt].
  simpl in Hsel. subst pl. reflexivity.
Qed.

(** A pass that fails a test writes nothing to the file, prints one line
    and leaves with status 1. *)
Lemma body_fails (codec : ascii -> bool) (ps : list string) (lib : Library)
    (w : World) :
  passes ps lib = false ->
  body codec ps lib w =
    (SystemExit 1,
     {| out_file := out_file w; err := err w ++ diagnostic lib ++ LF |}).
Proof.
  unfold passes, diagnostic. intros H.
  destruct (licenses lib) as [|l ls] eqn:Hl.
  - simpl. now apply body_no_licenses.
  - simpl in *. apply negb_false_iff, String.eqb_eq in H.
    apply body_no_permissible; rewrite Hl; [discriminate | exact H].
Qed.

Lemma body_completes (codec : ascii -> bool) (ps : list string)
    (lib : Library) (w : World) :
  completes codec ps lib = true ->
  body codec ps lib w
  = (Done tt,
     {| out_file := option_map (fun c => c ++ block ps lib) (out_file w);
        err := err w |}).
Proof.
  unfold completes. intros H. apply andb_true_iff in H as [Hp Hw].
  now rewrite (body_passes _ _ _ _ Hp), Hw.
Qed.

(** ** The loop *)

(** The passes that get to their end leave their blocks and go on. *)
Lemma for_each_prefix (codec : ascii -> bool) (ps : list string)
    (pre rest : list Library) (w : World) :
  forallb (completes codec ps) pre = true ->
  for_each (body codec ps) (pre ++ rest)%list w
  = for_each (body codec ps) rest
      {| out_file :=
           option_map (fun c => c ++ cat (map (block ps) pre)) (out_file w);
         err := err w |}.
Proof.
  revert w. induction pre as [|lib pre IH]; intros w Hpre.
  - cbn [app map cat fold_right]. now rewrite world_append_nil.
  - simpl in Hpre. apply andb_true_iff in Hpre as [Hlib Hpre].
    cbn [app for_each]. unfold bind at 1.
    rewrite (body_completes _ _ _ _ Hlib), (IH _ Hpre).
    cbn [out_file err map cat fold_right].
    destruct (out_file w) as [c|]; cbn [option_map]; [|reflexivity].
    now rewrite append_assoc.
Qed.

(** The whole [with] block, in its three cases. *)
Lemma write_report_completes (codec : ascii -> bool) (ps : list string)
    (libs : list Library) (w : World) :
  forallb (completes codec ps) libs = true ->
  write_report codec ps libs w =
    (Done tt,
     {| out_file := Some (header ++ cat (map (block ps) libs)); err := err w |}).
Proof.
  intros H. unfold write_report, bind, open_w, f_write.
  rewrite header_encodable. cbn [out_file err option_map].
  rewrite <- (app_nil_r libs) at 1.
  now rewrite (for_each_prefix _ _ _ _ _ H).
Qed.

Lemma write_report_fails (codec : ascii -> bool) (ps : list string)
    (pre : list Library) (bad : Library) (rest : list Library) (w : World) :
  forallb (completes codec ps) pre = true ->
  passes ps bad = false ->
  write_report codec ps (pre ++ bad :: rest)%list w =
    (SystemExit 1,
     {| out_file := Some (header ++ cat (map (block ps) pre));
        err := err w ++ diagnostic bad ++ LF |}).
Proof.
  intros Hpre Hbad. unfold write_report, bind, open_w, f_write.
  rewrite header_encodable. cbn [out_file err option_map].
  rewrite (for_each_prefix _ _ _ _ _ Hpre). cbn [for_each].
  unfold bind. now rewrite (body_fails _ _ _ _ Hbad).
Qed.

Lemma write_report_raises (codec : ascii -> bool) (ps : list string)
    (pre : list Library) (bad : Library) (rest : list Library) (w : World) :
  forallb (completes codec ps) pre = true ->
  passes ps bad = true ->
  writable codec (entry_of ps bad) = false ->
  write_report codec ps (pre ++ bad :: rest)%list w =
    (Uncaught UnicodeEncodeError,
     {| out_file := Some ((header ++ cat (map (block ps) pre))
                          ++ begun codec (entry_of ps bad));
        err := err w |}).
Proof.
  intros Hpre Hbad Hw. unfold write_report, bind, open_w, f_write.
  rewrite header_encodable. cbn [out_file err option_map].
  rewrite (for_each_prefix _ _ _ _ _ Hpre). cbn [for_each].
  unfold bind. now rewrite (body_passes _ _ _ _ Hbad), Hw.
Qed.

(** Every input either gets through as a whole or splits at the first
    dependency whose pass does not get to its end. *)
Lemma first_stop (codec : ascii -> bool) (ps : list string)
    (libs : list Library) :
  forallb (completes codec ps) libs = true
  \/ exists pre bad rest,
       libs = (pre ++ bad :: rest)%list
       /\ forallb (completes codec ps) pre = true
       /\ completes codec ps bad = false.
Proof.
  induction libs as [|lib libs IH]; [now left|].
  destruct (completes codec ps lib) eqn:Hlib.
  - destruct IH as [IH | (pre & bad & rest & -> & Hpre & Hbad)].
    + left. simpl. now rewrite Hlib.
    + right. exists (lib :: pre), bad, rest. simpl. now rewrite Hlib.
  - right. exists [], lib, libs. now repeat split.
Qed.

Lemma entries_completes (codec : ascii -> bool) (ps : list string)
    (libs : list Library) :
  forallb (completes codec ps) libs = true ->
  entries codec ps libs = map (entry_of ps) libs.
Proof.
  induction libs as [|lib libs IH]; simpl; [reflexivity|].
  intros H. apply andb_true_iff in H as [Hlib Hlibs].
  now rewrite Hlib, IH.
Qed.

Lemma entries_stops (codec : ascii -> bool) (ps : list string)
    (pre : list Library) (bad : Library) (rest : list Library) :
  forallb (completes codec ps) pre = true ->
  completes codec ps bad = false ->
  entries codec ps (pre ++ bad :: rest)%list = map (entry_of ps) pre.
Proof.
  induction pre as [|lib pre IH]; simpl; intros Hpre Hbad.
  - now rewrite Hbad.
  - apply andb_true_iff in Hpre as [Hlib Hpre].
    now rewrite Hlib, IH.
Qed.

Lemma map_render_entry_of (ps : list string) (libs : list Library) :
  map render (map (entry_of ps) libs) = map (block ps) libs.
Proof.
  rewrite map_map. apply map_ext. intros lib. apply render_entry_of.
Qed.

(** What a run is, whatever the input: the outcome, the file and the text
    printed in each of the three cases. *)
Lemma write_report_cases (codec : ascii -> bool) (ps : list string)
    (libs : list Library) (w : World) :
  (forallb (completes codec ps) libs = true
   /\ write_report codec ps libs w
      = (Done tt,
         {| out_file := Some (header ++ cat (map render (entries codec ps libs)));
            err := err w |}))
  \/ (exists pre bad rest,
        libs = (pre ++ bad :: rest)%list
        /\ forallb (completes codec ps) pre = true
        /\ passes ps bad = false
        /\ write_report codec ps libs w
           = (SystemExit 1,
              {| out_file :=
                   Some (header ++ cat (map render (entries codec ps libs)));
                 err := err w ++ diagnostic bad ++ LF |}))
  \/ (exists pre bad rest,
        libs = (pre ++ bad :: rest)%list
        /\ forallb (completes codec ps) pre = true
        /\ passes ps bad = true
        /\ writable codec (entry_of ps bad) = false
        /\ write_report codec ps libs w
           = (Uncaught UnicodeEncodeError,
              {| out_file :=
                   Some ((header ++ cat (map render (entries codec ps libs)))
                         ++ begun codec (entry_of ps bad));
                 err := err w |})).
Proof.
  destruct (first_stop codec ps libs)
    as [Hall | (pre & bad & rest & -> & Hpre & Hbad)].
  - left. split; [exact Hall|].
    rewrite (write_report_completes _ _ _ _ Hall), (entries_completes _ _ _ Hall).
    now rewrite map_render_entry_of.
  - right. rewrite (entries_stops _ _ _ _ _ Hpre Hbad), map_render_entry_of.
    unfold completes in Hbad. destruct (passes ps bad) eqn:Hp.
    + right. exists pre, bad, rest. simpl in Hbad.
      repeat split; try assumption.
      now apply write_report_raises.
    + left. exists pre, bad, rest. repeat split; try assumption.
      now apply write_report_fails.
Qed.

(** ** The identifier chosen depends on the identifiers present alone *)

Lemma In_filter_license (p : string) (ls : list LicenseEntry) :
  filter (fun x => String.eqb (license x) p) ls = []
  <-> ~ In p (map license ls).
Proof.
  split.
  - intros Hf Hin. apply in_map_iff in Hin as (x & Hx & Hin).
    pose proof (filter_nil_none _ _ Hf x Hin) as H. cbv beta in H.
    rewrite Hx, String.eqb_refl in H. discriminate.
  - intros Hno.
    destruct (filter (fun x => String.eqb (license x) p) ls) as [|x r] eqn:Hf;
      [reflexivity|].
    exfalso. apply Hno.
    assert (Hx : In x (filter (fun x => String.eqb (license x) p) ls))
      by (rewrite Hf; now left).
    apply filter_In in Hx as [Hx Hp]. apply String.eqb_eq in Hp.
    rewrite <- Hp. now apply in_map.
Qed.

Lemma filter_head_license (p : string) (ls : list LicenseEntry)
    (x : LicenseEntry) (r : list LicenseEntry) :
  filter (fun x => String.eqb (license x) p) ls = x :: r -> license x = p.
Proof.
  intros Hf.
  destruct (filter_head_split _ _ _ _ Hf) as (_ & _ & _ & _ & Hx).
  now apply String.eqb_eq.
Qed.

Lemma select_fst_same_ids (ps : list string) (ls ls' : list LicenseEntry) :
  (forall q, In q (map license ls) <-> In q (map license ls')) ->
  fst (select ps ls) = fst (select ps ls').
Proof.
  intros Hids. induction ps as [|p ps IH]; simpl; [reflexivity|].
  destruct (filter (fun x => String.eqb (license x) p) ls) as [|x r] eqn:Hf;
    destruct (filter (fun x => String.eqb (license x) p) ls') as [|x' r'] eqn:Hf'.
  - exact IH.
  - exfalso. apply In_filter_license in Hf. apply Hf, Hids.
    destruct (In_filter_license p ls') as [H _].
    destruct (in_dec string_dec p (map license ls')) as [Hin | Hout];
      [exact Hin|].
    apply In_filter_license in Hout. rewrite Hout in Hf'. discriminate.
  - exfalso. apply In_filter_license in Hf'. apply Hf', Hids.
    destruct (in_dec string_dec p (map license ls)) as [Hin | Hout];
      [exact Hin|].
    apply In_filter_license in Hout. rewrite Hout in Hf. discriminate.
  - simpl. now rewrite (filter_head_license _ _ _ _ Hf),
      (filter_head_license _ _ _ _ Hf').
Qed.

(** The first entry that satisfies a test is determined by the list. *)
Lemma first_occurrence_unique {A : Type} (P : A -> Prop)
    (pre pre' : list A) (e e' : A) (post post' : list A) :
  (pre ++ e :: post = pre' ++ e' :: post')%list ->
  P e -> P e' ->
  (forall x, In x pre -> ~ P x) ->
  (forall x, In x pre' -> ~ P x) ->
  pre = pre' /\ e = e' /\ post = post'.
Proof.
  revert pre'. induction pre as [|a pre IH]; intros [|a' pre'] Heq He He' Hpre Hpre';
    simpl in Heq; injection Heq as Ha Heq.
  - now subst.
  - exfalso. subst a'. apply (Hpre' e); [now left | exact He].
  - exfalso. subst a. apply (Hpre e'); [now left | exact He'].
  - subst a'.
    destruct (IH pre' Heq He He') as (-> & -> & ->).
    + intros x Hx. apply Hpre. now right.
    + intros x Hx. apply Hpre'. now right.
    + now repeat split.
Qed.

Lemma select_first_entry (ps : list string) (pre : list LicenseEntry)
    (e : LicenseEntry) (post : list LicenseEntry) :
  In (license e) ps ->
  license e = fst (select ps (pre ++ e :: post)%list) ->
  (forall x, In x pre -> license x <> license e) ->
  select ps (pre ++ e :: post)%list = (license e, text e).
Proof.
  intros Hin Hsel Hpre.
  destruct (select_Selected ps (pre ++ e :: post)%list)
    as [ps1 p ps2 pre' e' post' Hps Hls He' _ Hpre' | Hnone].
  - simpl in Hsel. subst p.
    destruct (first_occurrence_unique (fun x => license x = license e)
                pre pre' e e' post post' Hls eq_refl He' Hpre Hpre')
      as (_ & <- & _).
    reflexivity.
  - exfalso. apply (Hnone _ Hin e); [|reflexivity].
    apply in_or_app. right. now left.
Qed.

(** ** Allow-lists of named licenses

    The loop body tells "no license chosen" from "license chosen" by the
    empty string in [package_license], so the results below are for an
    allow-list that does not hold the empty string; [permissible_licenses]
    is one. *)

Lemma permissible_licenses_named : ~ In "" permissible_licenses.
Proof. intros [H | []]. discriminate. Qed.

Lemma passes_permitted (ps : list string) (lib : Library) :
  ~ In "" ps -> (passes ps lib = true <-> permitted ps lib).
Proof.
  intros Hps. unfold passes. split.
  - intros H. apply andb_true_iff in H as [_ Hsel].
    apply negb_true_iff, String.eqb_neq in Hsel.
    destruct (permittedb ps lib) eqn:Hb; [now apply permittedb_spec|].
    exfalso. apply Hsel. rewrite select_not_permitted; [reflexivity|].
    intros Hp. apply permittedb_spec in Hp. congruence.
  - intros Hp. apply andb_true_iff. split; apply negb_true_iff.
    + pose proof (permitted_licenses _ _ Hp) as Hne.
      destruct (licenses lib); [contradiction | reflexivity].
    + apply String.eqb_neq. intros Hempty. apply Hps.
      rewrite <- Hempty. now apply select_permitted.
Qed.

Lemma passes_not_permitted (ps : list string) (lib : Library) :
  ~ permitted ps lib -> passes ps lib = false.
Proof.
  intros Hno. unfold passes. rewrite select_not_permitted by assumption.
  simpl. apply andb_false_r.
Qed.

Lemma forallb_passes_permitted (ps : list string) (libs : list Library) :
  ~ In "" ps ->
  (forallb (passes ps) libs = true <-> Forall (permitted ps) libs).
Proof.
  intros Hps. rewrite forallb_forall, Forall_forall.
  split; intros H lib Hlib; apply (passes_permitted _ _ Hps); now apply H.
Qed.

Example scenario_A :
  write_report ascii_only permissible_licenses [foo] fresh
  = (Done tt,
     {| out_file :=
          Some ("# Thiard party library licenses" ++ LF ++ LF
                ++ "## foo" ++ LF ++ LF
                ++ "MIT" ++ LF ++ LF
                ++ "MIT TEXT" ++ LF ++ LF ++ LF);
        err := "" |}).
Proof. reflexivity. Qed.

Example scenario_B :
  write_report ascii_only permissible_licenses [bar] fresh
  = (SystemExit 1,
     {| out_file := Some ("# Thiard party library licenses" ++ LF ++ LF);
        err := "Error: bar has no licenses" ++ LF |}).
Proof. reflexivity. Qed.

Example scenario_C :
  write_report ascii_only permissible_licenses [baz] fresh
  = (SystemExit 1,
     {| out_file := Some ("# Thiard party library licenses" ++ LF ++ LF);
        err := "Error: baz has no permissible licenses" ++ LF |}).
Proof. reflexivity. Qed.

Example scenario_D :
  select extended_licenses (licenses dual) = ("Apache-2.0", "APACHE TEXT").
Proof. reflexivity. Qed.

(** The comparison of identifiers is exact: another case is another
    identifier. *)
Example lower_case_mit_is_not_permissible :
  select permissible_licenses [{| license := "mit"; text := "MIT TEXT" |}]
  = ("", "").
Proof. reflexivity. Qed.

(** The empty string in [package_license] is the loop's mark for "nothing
    chosen": an allow-list that held the empty identifier would have a
    license found under it rejected all the same. *)
Example empty_identifier_marks_no_choice :
  write_report ascii_only [""]
    [{| package_name := "anon";
        licenses := [{| license := ""; text := "TEXT" |}] |}] fresh
  = (SystemExit 1,
     {| out_file := Some header;
        err := "Error: anon has no permissible licenses" ++ LF |}).
Proof. reflexivity. Qed.

(** ** The properties of the generator *)

(** C1.  A dependency with at least one license whose identifier is, by exact
    string comparison, in the allow-list gets the identifier of the lowest
    allow-list index among those its licenses carry: the identifier at some
    index [i] of the allow-list occurs among the licenses, no identifier at
    an index below [i] does, the loop records that identifier and goes on to
    write it, and any reordering of the dependency's own license list gives
    the same identifier. *)
Theorem select_lowest_allow_list_index (ps : list string) (lib : Library) :
  ~ In "" ps ->
  permitted ps lib ->
  exists i p,
    nth_error ps i = Some p
    /\ In p (map license (licenses lib))
    /\ (forall j q, j < i -> nth_error ps j = Some q ->
                    ~ In q (map license (licenses lib)))
    /\ fst (select ps (licenses lib)) = p
    /\ passes ps lib = true
    /\ entry_license (entry_of ps lib) = p
    /\ (forall ls', Permutation (licenses lib) ls' -> fst (select ps ls') = p).
Proof.
  intros Hps Hperm.
  pose proof (proj2 (passes_permitted ps lib Hps) Hperm) as Hpass.
  pose proof (select_Selected ps (licenses lib)) as HS.
  unfold entry_of; cbn [entry_license].
  remember (select ps (licenses lib)) as r eqn:Hr.
  destruct HS as [ps1 p ps2 pre e post Hps' Hls He Hbefore _ | Hnone].
  - exists (length ps1), p. repeat split.
    + rewrite Hps', nth_error_app2, Nat.sub_diag by lia. reflexivity.
    + rewrite Hls, map_app. apply in_or_app. right. left. exact He.
    + intros j q Hj Hq Hq'. rewrite Hps', nth_error_app1 in Hq by exact Hj.
      apply nth_error_In in Hq. apply in_map_iff in Hq' as (x & Hx & Hx').
      exact (Hbefore q Hq x Hx' Hx).
    + exact Hpass.
    + intros ls' Hperm'.
      rewrite <- (select_fst_same_ids ps (licenses lib) ls').
      * now rewrite <- Hr.
      * intros q. split; apply Permutation_in.
        -- now apply Permutation_map.
        -- now apply Permutation_map, Permutation_sym.
  - exfalso. destruct Hperm as (e & He & Hp). exact (Hnone _ Hp _ He eq_refl).
Qed.

Lemma select_lowest_allow_list_index_witness :
  exists i p,
    nth_error extended_licenses i = Some p
    /\ In p (map license (licenses dual))
    /\ (forall j q, j < i -> nth_error extended_licenses j = Some q ->
                    ~ In q (map license (licenses dual)))
    /\ fst (select extended_licenses (licenses dual)) = p
    /\ passes extended_licenses dual = true
    /\ entry_license (entry_of extended_licenses dual) = p
    /\ (forall ls', Permutation (licenses dual) ls' ->
                    fst (select extended_licenses ls') = p).
Proof.
  apply (select_lowest_allow_list_index extended_licenses dual).
  - intros [H | [H | []]]; discriminate.
  - exists apache_entry. split; simpl; tauto.
Defined.


Lemma completes_permitted (codec : ascii -> bool) (ps : list string)
    (lib : Library) :
  ~ In "" ps -> completes codec ps lib = true -> permitted ps lib.
Proof.
  unfold completes. intros Hps H. apply andb_true_iff in H as [Hp _].
  now apply (passes_permitted _ _ Hps).
Qed.

Lemma forallb_completes (codec : ascii -> bool) (ps : list string)
    (libs : list Library) :
  ~ In "" ps ->
  Forall (permitted ps) libs ->
  Forall (fun lib => writable codec (entry_of ps lib) = true) libs ->
  forallb (completes codec ps) libs = true.
Proof.
  intros Hps Hperm Hw. apply forallb_forall. intros lib Hlib.
  rewrite Forall_forall in Hperm, Hw. unfold completes.
  rewrite (proj2 (passes_permitted _ _ Hps) (Hperm lib Hlib)).
  now rewrite (Hw lib Hlib).
Qed.

Lemma forallb_completes_permitted (codec : ascii -> bool) (ps : list string)
    (libs : list Library) :
  ~ In "" ps ->
  forallb (completes codec ps) libs = true -> Forall (permitted ps) libs.
Proof.
  intros Hps H. rewrite forallb_forall in H. apply Forall_forall.
  intros lib Hlib. apply (completes_permitted codec _ _ Hps). now apply H.
Qed.

Lemma entries_licenses_permissible (ps : list string) (libs : list Library) :
  Forall (permitted ps) libs ->
  Forall (fun e => In (entry_license e) ps) (map (entry_of ps) libs).
Proof.
  intros H. apply Forall_map.
  apply (Forall_impl _ (P := permitted ps)); [|exact H].
  intros lib Hlib. now apply select_permitted.
Qed.

Lemma firstn_length_app {A : Type} (l1 l2 : list A) :
  firstn (length l1) (l1 ++ l2)%list = l1.
Proof.
  induction l1 as [|x l1 IH]; simpl; [now destruct l2 | now rewrite IH].
Qed.

(** The first dependency without a license of the allow-list. *)
Lemma first_not_permitted (ps : list string) (libs : list Library) :
  (exists lib, In lib libs /\ ~ permitted ps lib) ->
  exists pre bad rest,
    libs = (pre ++ bad :: rest)%list
    /\ Forall (permitted ps) pre /\ ~ permitted ps bad.
Proof.
  induction libs as [|x libs IH]; intros (lib & Hin & Hno); [contradiction|].
  destruct (permittedb ps x) eqn:Hx.
  - apply permittedb_spec in Hx. destruct Hin as [-> | Hin]; [contradiction|].
    destruct IH as (pre & bad & rest & -> & Hpre & Hbad); [now exists lib|].
    exists (x :: pre), bad, rest. repeat split; [now constructor | exact Hbad].
  - exists [], x, libs. repeat split; [constructor|].
    intros Hp. apply permittedb_spec in Hp. congruence.
Qed.

(** The entries written are those of a beginning of the input that gets
    through. *)
Lemma entries_firstn (codec : ascii -> bool) (ps : list string)
    (libs : list Library) :
  exists n,
    n <= length libs
    /\ forallb (completes codec ps) (firstn n libs) = true
    /\ entries codec ps libs = map (entry_of ps) (firstn n libs)
    /\ (n < length libs ->
        exists bad, nth_error libs n = Some bad
                    /\ completes codec ps bad = false).
Proof.
  destruct (first_stop codec ps libs)
    as [Hall | (pre & bad & rest & -> & Hpre & Hbad)].
  - exists (length libs). rewrite firstn_all, (entries_completes _ _ _ Hall).
    repeat split; try assumption; lia.
  - exists (length pre).
    rewrite firstn_length_app, (entries_stops _ _ _ _ _ Hpre Hbad).
    repeat split; try assumption.
    + rewrite length_app. simpl. lia.
    + intros _. exists bad. split; [|exact Hbad].
      now rewrite nth_error_app2, Nat.sub_diag by lia.
Qed.

(** C2.  Whatever the input, the file is the header, the entries the loop
    wrote in full and, only when a write raised, the beginning of one more
    block; the entries are those of the first dependencies of the input, one
    each, and the license of every one of them, as of the block begun, is
    in the allow-list.  When some dependency has no license of the
    allow-list, the run does not end normally: its exit status is 1, and
    neither the first such dependency nor any dependency after it gets an
    entry, so the file is not the report. *)
Theorem report_entries_permissible (codec : ascii -> bool) (ps : list string)
    (libs : list Library) (w : World) :
  ~ In "" ps ->
  (exists part,
     out_file (snd (write_report codec ps libs w))
     = Some ((header ++ cat (map render (entries codec ps libs))) ++ part)
     /\ (part = ""
         \/ (fst (write_report codec ps libs w) = Uncaught UnicodeEncodeError
             /\ exists lib,
                  nth_error libs (length (entries codec ps libs)) = Some lib
                  /\ In (entry_license (entry_of ps lib)) ps
                  /\ part = begun codec (entry_of ps lib))))
  /\ (exists n, entries codec ps libs = map (entry_of ps) (firstn n libs))
  /\ Forall (fun e => In (entry_license e) ps) (entries codec ps libs)
  /\ ((exists lib, In lib libs /\ ~ permitted ps lib) ->
      fst (write_report codec ps libs w) <> Done tt
      /\ exit_status (fst (write_report codec ps libs w)) = 1%Z
      /\ length (entries codec ps libs) < length libs
      /\ exists pre bad rest,
           libs = (pre ++ bad :: rest)%list
           /\ Forall (permitted ps) pre
           /\ ~ permitted ps bad
           /\ length (entries codec ps libs) <= length pre).
Proof.
  intros Hps. split; [|split; [|split]].
  - destruct (write_report_cases codec ps libs w)
      as [(_ & ->) | [(pre & bad & rest & _ & _ & _ & ->)
                     | (pre & bad & rest & Hsplit & Hpre & Hp & Hw & ->)]].
    + exists "". split; [now rewrite append_nil_r | now left].
    + exists "". split; [now rewrite append_nil_r | now left].
    + exists (begun codec (entry_of ps bad)). split; [reflexivity|].
      right. split; [reflexivity|]. exists bad.
      assert (Hbad : completes codec ps bad = false)
        by (unfold completes; now rewrite Hp, Hw).
      rewrite Hsplit, (entries_stops _ _ _ _ _ Hpre Hbad), length_map.
      repeat split.
      * now rewrite nth_error_app2, Nat.sub_diag by lia.
      * apply select_permitted. now apply (passes_permitted _ _ Hps).
  - destruct (entries_firstn codec ps libs) as (n & _ & _ & Hn & _).
    now exists n.
  - destruct (entries_firstn codec ps libs) as (n & _ & Hall & -> & _).
    apply entries_licenses_permissible.
    now apply (forallb_completes_permitted codec _ _ Hps).
  - intros Hex.
    destruct (first_not_permitted ps libs Hex) as (pre & bad & rest & Hsplit & Hpre & Hbad).
    destruct (entries_firstn codec ps libs) as (n & Hn & Hall & Hent & _).
    assert (Hle : n <= length pre).
    { destruct (Nat.le_gt_cases n (length pre)) as [Hle | Hgt]; [exact Hle|].
      exfalso. apply Hbad.
      apply (forallb_completes_permitted codec _ _ Hps) in Hall.
      rewrite Forall_forall in Hall. apply Hall.
      apply (nth_error_In _ (length pre)).
      rewrite nth_error_firstn.
      destruct (Nat.ltb_spec (length pre) n) as [_ | Hge]; [|lia].
      now rewrite Hsplit, nth_error_app2, Nat.sub_diag by lia. }
    assert (Hlen : length (entries codec ps libs) = n)
      by (rewrite Hent, length_map, length_firstn; lia).
    assert (Hlt : n < length libs)
      by (rewrite Hsplit, length_app; simpl; lia).
    assert (Hnot : forallb (completes codec ps) libs <> true).
    { intros Hc. apply Hbad.
      apply (forallb_completes_permitted codec _ _ Hps) in Hc.
      rewrite Forall_forall in Hc. apply Hc. rewrite Hsplit.
      apply in_or_app. right. now left. }
    rewrite Hlen.
    destruct (write_report_cases codec ps libs w)
      as [(Hc & _) | [(? & ? & ? & _ & _ & _ & ->)
                     | (? & ? & ? & _ & _ & _ & _ & ->)]];
      [contradiction| |]; cbn [fst exit_status];
      (split; [discriminate|]); (split; [reflexivity|]);
      (split; [exact Hlt|]); exists pre, bad, rest; now repeat split.
Qed.

Lemma report_entries_permissible_witness :
  (exists part,
     out_file (snd (write_report ascii_only permissible_licenses
                                 [foo; cafe; baz] stale))
     = Some ((header
              ++ cat (map render (entries ascii_only permissible_licenses
                                          [foo; cafe; baz])))
             ++ part)
     /\ (part = ""
         \/ (fst (write_report ascii_only permissible_licenses
                               [foo; cafe; baz] stale)
             = Uncaught UnicodeEncodeError
             /\ exists lib,
                  nth_error [foo; cafe; baz]
                            (length (entries ascii_only permissible_licenses
                                             [foo; cafe; baz]))
                  = Some lib
                  /\ In (entry_license (entry_of permissible_licenses lib))
                        permissible_licenses
                  /\ part = begun ascii_only (entry_of permissible_licenses lib))))
  /\ (exists n, entries ascii_only permissible_licenses [foo; cafe; baz]
                = map (entry_of permissible_licenses) (firstn n [foo; cafe; baz]))
  /\ Forall (fun e => In (entry_license e) permissible_licenses)
            (entries ascii_only permissible_licenses [foo; cafe; baz])
  /\ ((exists lib, In lib [foo; cafe; baz] /\ ~ permitted permissible_licenses lib) ->
      fst (write_report ascii_only permissible_licenses [foo; cafe; baz] stale)
      <> Done tt
      /\ exit_status (fst (write_report ascii_only permissible_licenses
                                        [foo; cafe; baz] stale)) = 1%Z
      /\ length (entries ascii_only permissible_licenses [foo; cafe; baz])
         < length [foo; cafe; baz]
      /\ exists pre bad rest,
           [foo; cafe; baz] = (pre ++ bad :: rest)%list
           /\ Forall (permitted permissible_licenses) pre
           /\ ~ permitted permissible_licenses bad
           /\ length (entries ascii_only permissible_licenses [foo; cafe; baz])
              <= length pre).
Proof.
  apply (report_entries_permissible ascii_only permissible_licenses
           [foo; cafe; baz] stale).
  exact permissible_licenses_named.
Defined.

(** C3, as the claim has it, fails: with a dependency without permissible
    license before the dependency without licenses, the run stops at the
    former, and the line about the latter is never printed.  Nor is it
    when a write for an earlier dependency raises. *)
Lemma no_licenses_behind_failure_cex :
  In bar [baz; bar]
  /\ licenses bar = []
  /\ write_report ascii_only permissible_licenses [baz; bar] fresh
     = (SystemExit 1,
        {| out_file := Some header;
           err := "Error: baz has no permissible licenses" ++ LF |})
  /\ err (snd (write_report ascii_only permissible_licenses [baz; bar] fresh))
     <> "Error: bar has no licenses" ++ LF
  /\ write_report ascii_only permissible_licenses [cafe; bar] fresh
     = (Uncaught UnicodeEncodeError,
        {| out_file := Some (header ++ "## cafe" ++ LF ++ LF ++ "MIT" ++ LF ++ LF);
           err := "" |}).
Proof.
  split; [right; now left|]. split; [reflexivity|]. split; [reflexivity|].
  split; [|reflexivity]. vm_compute. discriminate.
Qed.

(** C3, amended.  When a dependency has an empty license list and the loop
    gets to it (every dependency before it has a license of the allow-list
    and the three writes of its block found their text in the encoding of
    the file), the run prints the line
    [Error: <package_name> has no licenses] with that dependency's package
    name to standard error and exits with status 1 at once: the outcome is
    the same whatever dependencies follow. *)
Theorem no_licenses_diagnostic (codec : ascii -> bool) (ps : list string)
    (pre : list Library) (bad : Library) (rest : list Library) (w : World) :
  ~ In "" ps ->
  Forall (permitted ps) pre ->
  Forall (fun lib => writable codec (entry_of ps lib) = true) pre ->
  licenses bad = [] ->
  write_report codec ps (pre ++ bad :: rest)%list w
    = (SystemExit 1,
       {| out_file := Some (header ++ cat (map (block ps) pre));
          err := err w ++ "Error: " ++ package_name bad ++ " has no licenses"
                       ++ LF |})
  /\ exit_status (fst (write_report codec ps (pre ++ bad :: rest)%list w)) = 1%Z
  /\ forall rest',
       write_report codec ps (pre ++ bad :: rest')%list w
       = write_report codec ps (pre ++ bad :: rest)%list w.
Proof.
  intros Hps Hpre Hw Hbad.
  pose proof (forallb_completes codec _ _ Hps Hpre Hw) as Hall.
  assert (Hfail : passes ps bad = false) by (unfold passes; now rewrite Hbad).
  assert (Hrun : forall r,
            write_report codec ps (pre ++ bad :: r)%list w
            = (SystemExit 1,
               {| out_file := Some (header ++ cat (map (block ps) pre));
                  err := err w ++ "Error: " ++ package_name bad
                               ++ " has no licenses" ++ LF |})).
  { intros r. rewrite (write_report_fails _ _ _ _ _ _ Hall Hfail).
    unfold diagnostic. rewrite Hbad. cbn [length Nat.eqb].
    now rewrite !append_assoc. }
  split; [apply Hrun|]. split.
  - now rewrite Hrun.
  - intros rest'. now rewrite !Hrun.
Qed.

Lemma no_licenses_diagnostic_witness :
  write_report ascii_only permissible_licenses ([foo] ++ bar :: [baz])%list stale
    = (SystemExit 1,
       {| out_file := Some (header ++ cat (map (block permissible_licenses) [foo]));
          err := err stale ++ "Error: " ++ package_name bar ++ " has no licenses"
                           ++ LF |})
  /\ exit_status
       (fst (write_report ascii_only permissible_licenses
                          ([foo] ++ bar :: [baz])%list stale))
     = 1%Z
  /\ forall rest',
       write_report ascii_only permissible_licenses ([foo] ++ bar :: rest')%list stale
       = write_report ascii_only permissible_licenses
                      ([foo] ++ bar :: [baz])%list stale.
Proof.
  apply (no_licenses_diagnostic ascii_only permissible_licenses
           [foo] bar [baz] stale).
  - exact permissible_licenses_named.
  - constructor; [|constructor]. exists mit_entry. split; simpl; tauto.
  - constructor; [reflexivity | constructor].
  - reflexivity.
Defined.

(** C4, as the claim has it, fails: with a dependency without licenses
    before the dependency without permissible license, the run stops at the
    former, and the line about the latter is never printed.  Nor is it
    when a write for an earlier dependency raises. *)
Lemma no_permissible_behind_failure_cex :
  In baz [bar; baz]
  /\ licenses baz <> []
  /\ ~ permitted permissible_licenses baz
  /\ write_report ascii_only permissible_licenses [bar; baz] fresh
     = (SystemExit 1,
        {| out_file := Some header;
           err := "Error: bar has no licenses" ++ LF |})
  /\ err (snd (write_report ascii_only permissible_licenses [bar; baz] fresh))
     <> "Error: baz has no permissible licenses" ++ LF
  /\ write_report ascii_only permissible_licenses [cafe; baz] fresh
     = (Uncaught UnicodeEncodeError,
        {| out_file := Some (header ++ "## cafe" ++ LF ++ LF ++ "MIT" ++ LF ++ LF);
           err := "" |}).
Proof.
  split; [right; now left|]. split; [discriminate|]. split.
  - intros Hp. apply permittedb_spec in Hp. discriminate.
  - split; [reflexivity|]. split; [|reflexivity]. vm_compute. discriminate.
Qed.

(** C4, amended.  When a dependency has licenses but none with an identifier
    of the allow-list, and the loop gets to it (every dependency before it
    has a license of the allow-list and the three writes of its block found
    their text in the encoding of the file), the run prints the line
    [Error: <package_name> has no permissible licenses] with that
    dependency's package name to standard error and exits with status 1 at
    once: the outcome is the same whatever dependencies follow. *)
Theorem no_permissible_diagnostic (codec : ascii -> bool) (ps : list string)
    (pre : list Library) (bad : Library) (rest : list Library) (w : World) :
  ~ In "" ps ->
  Forall (permitted ps) pre ->
  Forall (fun lib => writable codec (entry_of ps lib) = true) pre ->
  licenses bad <> [] ->
  (forall e, In e (licenses bad) -> ~ In (license e) ps) ->
  write_report codec ps (pre ++ bad :: rest)%list w
    = (SystemExit 1,
       {| out_file := Some (header ++ cat (map (block ps) pre));
          err := err w ++ "Error: " ++ package_name bad
                       ++ " has no permissible licenses" ++ LF |})
  /\ exit_status (fst (write_report codec ps (pre ++ bad :: rest)%list w)) = 1%Z
  /\ forall rest',
       write_report codec ps (pre ++ bad :: rest')%list w
       = write_report codec ps (pre ++ bad :: rest)%list w.
Proof.
  intros Hps Hpre Hw Hne Hnone.
  pose proof (forallb_completes codec _ _ Hps Hpre Hw) as Hall.
  assert (Hno : ~ permitted ps bad).
  { intros (e & He & Hp). exact (Hnone e He Hp). }
  pose proof (passes_not_permitted _ _ Hno) as Hfail.
  assert (Hrun : forall r,
            write_report codec ps (pre ++ bad :: r)%list w
            = (SystemExit 1,
               {| out_file := Some (header ++ cat (map (block ps) pre));
                  err := err w ++ "Error: " ++ package_name bad
                               ++ " has no permissible licenses" ++ LF |})).
  { intros r. rewrite (write_report_fails _ _ _ _ _ _ Hall Hfail).
    unfold diagnostic.
    destruct (licenses bad) as [|l ls]; [contradiction|].
    cbn [length Nat.eqb]. now rewrite !append_assoc. }
  split; [apply Hrun|]. split.
  - now rewrite Hrun.
  - intros rest'. now rewrite !Hrun.
Qed.

Lemma no_permissible_diagnostic_witness :
  write_report ascii_only permissible_licenses ([foo] ++ baz :: [bar])%list stale
    = (SystemExit 1,
       {| out_file := Some (header ++ cat (map (block permissible_licenses) [foo]));
          err := err stale ++ "Error: " ++ package_name baz
                           ++ " has no permissible licenses" ++ LF |})
  /\ exit_status
       (fst (write_report ascii_only permissible_licenses
                          ([foo] ++ baz :: [bar])%list stale))
     = 1%Z
  /\ forall rest',
       write_report ascii_only permissible_licenses ([foo] ++ baz :: rest')%list stale
       = write_report ascii_only permissible_licenses
                      ([foo] ++ baz :: [bar])%list stale.
Proof.
  apply (no_permissible_diagnostic ascii_only permissible_licenses
           [foo] baz [bar] stale).
  - exact permissible_licenses_named.
  - constructor; [|constructor]. exists mit_entry. split; simpl; tauto.
  - constructor; [reflexivity | constructor].
  - discriminate.
  - intros e [<- | []] [H | []]. discriminate.
Defined.

(** C5.  When the license-enumeration command returns a non-zero status, or
    [json.loads] cannot parse what it printed, the script ends by the
    exception raised there, with a non-zero exit status, and the world is as
    it was: the output file is not created, emptied or written, no
    dependency has been looked at and nothing has been printed by the
    script. *)
Theorem tool_failure_aborts (codec : ascii -> bool)
    (json_loads : string -> option Bundle) (cp : CompletedProcess) (w : World) :
  returncode cp <> 0%Z \/ json_loads (stdout cp) = None ->
  main codec json_loads cp w
    = (Uncaught (if Z.eqb (returncode cp) 0 then JSONDecodeError
                 else CalledProcessError (returncode cp)),
       w)
  /\ exit_status (fst (main codec json_loads cp w)) <> 0%Z.
Proof.
  intros H.
  assert (Hrun : main codec json_loads cp w
            = (Uncaught (if Z.eqb (returncode cp) 0 then JSONDecodeError
                         else CalledProcessError (returncode cp)),
               w)).
  { unfold main, script, bind, raise, ret.
    destruct (Z.eqb_spec (returncode cp) 0) as [Hz | Hnz]; [|reflexivity].
    destruct H as [Hrc | Hjson]; [contradiction|].
    now rewrite Hjson. }
  rewrite Hrun. split; [reflexivity|]. simpl. discriminate.
Qed.

(** The command fails with status 101 although it printed a document. *)
Lemma tool_failure_aborts_witness :
  main ascii_only (fun _ => Some {| third_party_libraries := [foo] |})
       {| returncode := 101; stdout := "" |} stale
    = (Uncaught (CalledProcessError 101), stale)
  /\ exit_status
       (fst (main ascii_only (fun _ => Some {| third_party_libraries := [foo] |})
                  {| returncode := 101; stdout := "" |} stale))
     <> 0%Z.
Proof.
  apply (tool_failure_aborts ascii_only
           (fun _ => Some {| third_party_libraries := [foo] |})
           {| returncode := 101; stdout := "" |} stale).
  left. discriminate.
Defined.

(** C6.  When validation fails at the dependency of index [i] (the loop
    gets to it, every dependency before it having a license of the
    allow-list and its block written, and it has no license of the
    allow-list, be it for having no license at all), the run exits with
    status 1 and the file, whatever it held before the run, holds the
    header and the blocks of the dependencies of index 0 to [i - 1], and
    nothing else; for [i = 0] it holds the header alone. *)
Theorem partial_file_at_failure (codec : ascii -> bool) (ps : list string)
    (libs : list Library) (i : nat) (bad : Library) (w : World) :
  ~ In "" ps ->
  nth_error libs i = Some bad ->
  Forall (permitted ps) (firstn i libs) ->
  Forall (fun lib => writable codec (entry_of ps lib) = true) (firstn i libs) ->
  ~ permitted ps bad ->
  fst (write_report codec ps libs w) = SystemExit 1
  /\ out_file (snd (write_report codec ps libs w))
     = Some (header ++ cat (map (block ps) (firstn i libs)))
  /\ (i = 0 -> out_file (snd (write_report codec ps libs w)) = Some header).
Proof.
  intros Hps Hnth Hpre Hw Hbad.
  destruct (nth_error_split _ _ Hnth) as (pre & rest & -> & <-).
  rewrite firstn_length_app in *.
  pose proof (forallb_completes codec _ _ Hps Hpre Hw) as Hall.
  rewrite (write_report_fails _ _ _ _ _ _ Hall (passes_not_permitted _ _ Hbad)).
  repeat split.
  intros Hlen. destruct pre; [|discriminate].
  cbn [map cat fold_right out_file snd]. now rewrite append_nil_r.
Qed.

Lemma partial_file_at_failure_witness :
  fst (write_report ascii_only permissible_licenses [foo; dual; bar; cafe] stale)
    = SystemExit 1
  /\ out_file (snd (write_report ascii_only permissible_licenses
                                 [foo; dual; bar; cafe] stale))
     = Some (header
             ++ cat (map (block permissible_licenses)
                         (firstn 2 [foo; dual; bar; cafe])))
  /\ (2 = 0 ->
      out_file (snd (write_report ascii_only permissible_licenses
                                  [foo; dual; bar; cafe] stale))
      = Some header).
Proof.
  apply (partial_file_at_failure ascii_only permissible_licenses
           [foo; dual; bar; cafe] 2 bar stale).
  - exact permissible_licenses_named.
  - reflexivity.
  - repeat constructor; exists mit_entry; split; simpl; tauto.
  - repeat constructor.
  - intros (e & [] & _).
Defined.

Lemma select_permitted_entry (ps : list string) (lib : Library) :
  permitted ps lib ->
  exists e,
    In e (licenses lib) /\ In (license e) ps
    /\ select ps (licenses lib) = (license e, text e).
Proof.
  intros (e0 & He0 & Hp0).
  destruct (select_Selected ps (licenses lib))
    as [ps1 p ps2 pre e post Hps Hls He _ _ | Hnone].
  - exists e. rewrite He. repeat split.
    + rewrite Hls. apply in_or_app. right. now left.
    + rewrite Hps. apply in_or_app. right. now left.
  - exfalso. exact (Hnone _ Hp0 _ He0 eq_refl).
Qed.

(** C7, as the claim has it, fails: every dependency has a license of the
    allow-list, yet the run ends by the exception of a write whose text the
    encoding of the file lacks, with exit status 1 and the block of that
    dependency cut short after its license line. *)
Lemma valid_records_unencodable_cex :
  Forall (permitted permissible_licenses) [foo; cafe]
  /\ write_report ascii_only permissible_licenses [foo; cafe] fresh
     = (Uncaught UnicodeEncodeError,
        {| out_file :=
             Some (header
                   ++ ("## foo" ++ LF ++ LF ++ "MIT" ++ LF ++ LF
                       ++ "MIT TEXT" ++ LF ++ LF ++ LF)
                   ++ "## cafe" ++ LF ++ LF ++ "MIT" ++ LF ++ LF);
           err := "" |})
  /\ exit_status (fst (write_report ascii_only permissible_licenses
                                    [foo; cafe] fresh)) = 1%Z.
Proof.
  split; [|split; reflexivity].
  repeat constructor; apply permittedb_spec; reflexivity.
Qed.

(** C7, amended.  When every dependency has a license of the allow-list and
    the three writes of every block find their text in the encoding of the
    file, the run ends with exit status 0, prints nothing to standard
    error, and the file is the header line and a blank line, then, for each
    dependency in the order of the input, the line [## <package_name>], a
    blank line, the line of the chosen identifier, a blank line, the
    license text and two blank lines; identifier and text are those of one
    license entry of the dependency, whose identifier is in the
    allow-list. *)
Theorem report_of_successful_run (codec : ascii -> bool) (ps : list string)
    (libs : list Library) (w : World) :
  ~ In "" ps ->
  Forall (permitted ps) libs ->
  Forall (fun lib => writable codec (entry_of ps lib) = true) libs ->
  write_report codec ps libs w
    = (Done tt,
       {| out_file :=
            Some (("# Thiard party library licenses" ++ LF ++ LF)
                  ++ cat (map (fun lib =>
                                 ("## " ++ package_name lib ++ LF ++ LF)
                                 ++ (fst (select ps (licenses lib)) ++ LF ++ LF)
                                 ++ (snd (select ps (licenses lib))
                                     ++ LF ++ LF ++ LF))
                              libs));
          err := err w |})
  /\ exit_status (fst (write_report codec ps libs w)) = 0%Z
  /\ Forall (fun lib =>
               exists e,
                 In e (licenses lib) /\ In (license e) ps
                 /\ select ps (licenses lib) = (license e, text e))
            libs.
Proof.
  intros Hps Hperm Hw.
  pose proof (forallb_completes codec _ _ Hps Hperm Hw) as Hall.
  assert (Hrun : write_report codec ps libs w
            = (Done tt,
               {| out_file :=
                    Some (("# Thiard party library licenses" ++ LF ++ LF)
                          ++ cat (map (fun lib =>
                                 ("## " ++ package_name lib ++ LF ++ LF)
                                 ++ (fst (select ps (licenses lib)) ++ LF ++ LF)
                                 ++ (snd (select ps (licenses lib))
                                     ++ LF ++ LF ++ LF))
                              libs));
                  err := err w |})).
  { rewrite (write_report_completes _ _ _ _ Hall).
    unfold header. do 5 f_equal.
    apply map_ext. intros lib. unfold block.
    now destruct (select ps (licenses lib)). }
  split; [exact Hrun|]. split; [now rewrite Hrun|].
  apply (Forall_impl _ (P := permitted ps)); [|exact Hperm].
  intros lib. apply select_permitted_entry.
Qed.

Lemma report_of_successful_run_witness :
  write_report ascii_only permissible_licenses [foo; dual] stale
    = (Done tt,
       {| out_file :=
            Some (("# Thiard party library licenses" ++ LF ++ LF)
                  ++ cat (map (fun lib =>
                                 ("## " ++ package_name lib ++ LF ++ LF)
                                 ++ (fst (select permissible_licenses (licenses lib))
                                     ++ LF ++ LF)
                                 ++ (snd (select permissible_licenses (licenses lib))
                                     ++ LF ++ LF ++ LF))
                              [foo; dual]));
          err := err stale |})
  /\ exit_status (fst (write_report ascii_only permissible_licenses
                                    [foo; dual] stale)) = 0%Z
  /\ Forall (fun lib =>
               exists e,
                 In e (licenses lib) /\ In (license e) permissible_licenses
                 /\ select permissible_licenses (licenses lib)
                    = (license e, text e))
            [foo; dual].
Proof.
  apply (report_of_successful_run ascii_only permissible_licenses
           [foo; dual] stale).
  - exact permissible_licenses_named.
  - repeat constructor; exists mit_entry; split; simpl; tauto.
  - repeat constructor.
Defined.

Lemma write_report_done (codec : ascii -> bool) (ps : list string)
    (libs : list Library) (w : World) :
  fst (write_report codec ps libs w) = Done tt ->
  forallb (completes codec ps) libs = true.
Proof.
  intros Hdone.
  destruct (write_report_cases codec ps libs w)
    as [(Hall & _) | [(? & ? & ? & _ & _ & _ & Hrun)
                     | (? & ? & ? & _ & _ & _ & _ & Hrun)]];
    [exact Hall | |]; rewrite Hrun in Hdone; discriminate.
Qed.

(** C8.  When the whole run succeeds, the file is the header and one entry
    per dependency of the input, and the package names of the entries, in
    the order written, are the package names of the input, in its order. *)
Theorem report_package_names (codec : ascii -> bool) (ps : list string)
    (libs : list Library) (w : World) :
  fst (write_report codec ps libs w) = Done tt ->
  out_file (snd (write_report codec ps libs w))
    = Some (header ++ cat (map render (entries codec ps libs)))
  /\ map entry_package (entries codec ps libs) = map package_name libs
  /\ length (entries codec ps libs) = length libs.
Proof.
  intros Hdone. pose proof (write_report_done _ _ _ _ Hdone) as Hall.
  rewrite (entries_completes _ _ _ Hall). split; [|split].
  - rewrite (write_report_completes _ _ _ _ Hall).
    now rewrite map_render_entry_of.
  - rewrite map_map. reflexivity.
  - apply length_map.
Qed.

Lemma report_package_names_witness :
  out_file (snd (write_report ascii_only permissible_licenses
                              [dual; foo; dual] fresh))
    = Some (header
            ++ cat (map render (entries ascii_only permissible_licenses
                                        [dual; foo; dual])))
  /\ map entry_package (entries ascii_only permissible_licenses [dual; foo; dual])
     = map package_name [dual; foo; dual]
  /\ length (entries ascii_only permissible_licenses [dual; foo; dual])
     = length [dual; foo; dual].
Proof.
  apply (report_package_names ascii_only permissible_licenses
           [dual; foo; dual] fresh).
  reflexivity.
Defined.

(** C9.  The outcome of the script, the text it prints to standard error
    and the file it writes are determined by what the license-enumeration
    command returned: they are the same from every starting world, a second
    run after a first included.  The script leaves the file alone only when
    it ends by the exception of the failed command or of the parser. *)
Theorem generator_deterministic (codec : ascii -> bool) (ps : list string)
    (json_loads : string -> option Bundle) (cp : CompletedProcess) :
  exists (o : Outcome unit) (printed : string) (written : option string),
    (forall w,
       script codec ps json_loads cp w
       = (o,
          {| out_file := match written with
                         | Some c => Some c
                         | None => out_file w
                         end;
             err := err w ++ printed |}))
    /\ (written = None ->
        o = Uncaught JSONDecodeError
        \/ exists code, o = Uncaught (CalledProcessError code))
    /\ (forall w,
          script codec ps json_loads cp (snd (script codec ps json_loads cp w))
          = (o,
             {| out_file := out_file (snd (script codec ps json_loads cp w));
                err := err w ++ printed ++ printed |})).
Proof.
  assert (Hwr : forall libs,
            exists (o : Outcome unit) (printed c : string),
              forall w,
                write_report codec ps libs w
                = (o, {| out_file := Some c; err := err w ++ printed |})).
  { intros libs.
    destruct (first_stop codec ps libs)
      as [Hall | (pre & bad & rest & -> & Hpre & Hbad)].
    - exists (Done tt), "", (header ++ cat (map (block ps) libs)). intros w.
      now rewrite (write_report_completes _ _ _ _ Hall), append_nil_r.
    - unfold completes in Hbad. destruct (passes ps bad) eqn:Hp.
      + simpl in Hbad.
        exists (Uncaught UnicodeEncodeError), "",
          ((header ++ cat (map (block ps) pre)) ++ begun codec (entry_of ps bad)).
        intros w.
        now rewrite (write_report_raises _ _ _ _ _ _ Hpre Hp Hbad), append_nil_r.
      + exists (SystemExit 1), (diagnostic bad ++ LF),
          (header ++ cat (map (block ps) pre)). intros w.
        now rewrite (write_report_fails _ _ _ _ _ _ Hpre Hp). }
  assert (Hmain :
    exists (o : Outcome unit) (printed : string) (written : option string),
      (forall w,
         script codec ps json_loads cp w
         = (o,
            {| out_file := match written with
                           | Some c => Some c
                           | None => out_file w
                           end;
               err := err w ++ printed |}))
      /\ (written = None ->
          o = Uncaught JSONDecodeError
          \/ exists code, o = Uncaught (CalledProcessError code))).
  { unfold script, bind, raise, ret.
    destruct (Z.eqb (returncode cp) 0).
    - destruct (json_loads (stdout cp)) as [b|].
      + destruct (Hwr (third_party_libraries b)) as (o & printed & c & Hrun).
        exists o, printed, (Some c). split; [exact Hrun | discriminate].
      + exists (Uncaught JSONDecodeError), "", None. split.
        * intros [f e]. simpl. now rewrite append_nil_r.
        * intros _. now left.
    - exists (Uncaught (CalledProcessError (returncode cp))), "", None. split.
      + intros [f e]. simpl. now rewrite append_nil_r.
      + intros _. right. now eexists. }
  destruct Hmain as (o & printed & written & Hrun & Hnone).
  exists o, printed, written. repeat split; try assumption.
  intros w. rewrite (Hrun (snd (script codec ps json_loads cp w))).
  rewrite (Hrun w). cbn [snd out_file err].
  rewrite append_assoc. now destruct written.
Qed.

(** C10.  When the first license entry that carries the chosen identifier
    is [e] (the identifier is in the allow-list, no entry before [e] in the
    dependency's own order carries it, whatever follows [e]), the identifier
    and the text written to the report are those of [e]; the entries after
    [e] may carry any text without changing either. *)
Theorem first_duplicate_supplies_text (ps : list string) (lib : Library)
    (pre : list LicenseEntry) (e : LicenseEntry) (post : list LicenseEntry) :
  licenses lib = (pre ++ e :: post)%list ->
  In (license e) ps ->
  fst (select ps (licenses lib)) = license e ->
  (forall x, In x pre -> license x <> license e) ->
  select ps (licenses lib) = (license e, text e)
  /\ block ps lib
     = ("## " ++ package_name lib ++ LF ++ LF)
       ++ (license e ++ LF ++ LF)
       ++ (text e ++ LF ++ LF ++ LF)
  /\ forall post',
       map license post' = map license post ->
       select ps (pre ++ e :: post')%list = (license e, text e).
Proof.
  intros Hls Hin Hsel Hpre.
  assert (Hfirst : select ps (licenses lib) = (license e, text e)).
  { rewrite Hls in *. now apply select_first_entry. }
  split; [exact Hfirst|]. split.
  - unfold block. now rewrite Hfirst.
  - intros post' Hpost. apply select_first_entry; try assumption.
    rewrite <- Hsel, Hls. apply select_fst_same_ids.
    intros q. rewrite !map_app. simpl. now rewrite Hpost.
Qed.

Lemma first_duplicate_supplies_text_witness :
  select permissible_licenses (licenses twice) = ("MIT", "FIRST TEXT")
  /\ block permissible_licenses twice
     = ("## " ++ package_name twice ++ LF ++ LF)
       ++ ("MIT" ++ LF ++ LF)
       ++ ("FIRST TEXT" ++ LF ++ LF ++ LF)
  /\ forall post',
       map license post'
       = map license [{| license := "MIT"; text := "SECOND TEXT" |}] ->
       select permissible_licenses
              ([gpl_entry] ++ {| license := "MIT"; text := "FIRST TEXT" |} :: post')%list
       = ("MIT", "FIRST TEXT").
Proof.
  apply (first_duplicate_supplies_text permissible_licenses twice
           [gpl_entry] {| license := "MIT"; text := "FIRST TEXT" |}
           [{| license := "MIT"; text := "SECOND TEXT" |}]).
  - reflexivity.
  - now left.
  - reflexivity.
  - intros x [<- | []]. discriminate.
Defined.

(** * The script on any document *)

(** ** Documents of the right shape *)

Lemma traverse_Forall2 {A B : Type} (f : A -> option B) (l : list A)
    (l' : list B) :
  traverse f l = Some l' -> Forall2 (fun x y => f x = Some y) l l'.
Proof.
  revert l'. induction l as [|x l IH]; simpl; intros l' H.
  - injection H as <-. constructor.
  - destruct (f x) as [y|] eqn:Hx; [|discriminate].
    destruct (traverse f l) as [r|]; [|discriminate].
    injection H as <-. constructor; [exact Hx | now apply IH].
Qed.

Lemma entry_of_json_keys (x : Json) (e : LicenseEntry) :
  entry_of_json x = Some e ->
  subscript x "license" = inr (JStr (license e))
  /\ subscript x "text" = inr (JStr (text e)).
Proof.
  unfold entry_of_json.
  destruct (subscript x "license") as [|[]]; try discriminate.
  destruct (subscript x "text") as [|[]]; try discriminate.
  intros H. injection H as <-. now split.
Qed.

Lemma library_of_json_keys (v : Json) (lib : Library) :
  library_of_json v = Some lib ->
  exists ls,
    subscript v "package_name" = inr (JStr (package_name lib))
    /\ subscript v "licenses" = inr (JArr ls)
    /\ Forall2 (fun x e => entry_of_json x = Some e) ls (licenses lib).
Proof.
  unfold library_of_json.
  destruct (subscript v "package_name") as [|[]]; try discriminate.
  destruct (subscript v "licenses") as [|[| | | |ls|]]; try discriminate.
  destruct (traverse entry_of_json ls) as [es|] eqn:Hes; [|discriminate].
  intros H. injection H as <-. exists ls. repeat split.
  now apply traverse_Forall2.
Qed.

Lemma filter_license_typed (p : string) (xs : list Json) (es : list LicenseEntry) :
  Forall2 (fun x e => entry_of_json x = Some e) xs es ->
  exists fs,
    filter_license p xs = inr fs
    /\ Forall2 (fun x e => entry_of_json x = Some e) fs
               (filter (fun e => String.eqb (license e) p) es).
Proof.
  induction 1 as [|x e xs es Hx _ IH]; simpl.
  - exists []. split; [reflexivity | constructor].
  - destruct IH as (fs & -> & Hfs).
    destruct (entry_of_json_keys _ _ Hx) as [-> _]. simpl.
    destruct (String.eqb (license e) p).
    + exists (x :: fs). split; [reflexivity | now constructor].
    + exists fs. now split.
Qed.

Lemma select_run_typed (ps : list string) (xs : list Json)
    (es : list LicenseEntry) :
  Forall2 (fun x e => entry_of_json x = Some e) xs es ->
  select_run ps (JArr xs)
  = inr (JStr (fst (select ps es)), JStr (snd (select ps es))).
Proof.
  intros H. induction ps as [|p ps IH]; simpl; [reflexivity|].
  destruct (filter_license_typed p _ _ H) as (fs & -> & Hfs).
  destruct Hfs as [|x e fs' es' Hx _]; [exact IH|].
  now destruct (entry_of_json_keys _ _ Hx) as [-> ->].
Qed.

Lemma body_run_typed (codec : ascii -> bool) (other : Json -> string)
    (ps : list string) (v : Json) (lib : Library) (w : World) :
  library_of_json v = Some lib ->
  body_run codec other ps v w = lift (body codec ps lib) w.
Proof.
  intros H. destruct (library_of_json_keys _ _ H) as (ls & Hn & Hl & Hes).
  unfold body_run, body, bind_run, eval. rewrite Hn, Hl. cbn [len].
  rewrite (Forall2_length Hes), (select_run_typed ps _ _ Hes).
  cbn [fst snd eq_str fmt].
  destruct (licenses lib) as [|e es]; [reflexivity|].
  cbn [length Nat.eqb ret_run].
  destruct (select ps (e :: es)) as [pl lt]. cbn [fst snd].
  unfold lift, bind. cbn [ret].
  destruct (String.eqb pl ""); [reflexivity|].
  unfold ret_run, f_write.
  destruct (encodable codec ("## " ++ package_name lib ++ LF ++ LF));
    [|reflexivity].
  destruct (encodable codec (pl ++ LF ++ LF)); [|reflexivity].
  destruct (encodable codec (lt ++ LF ++ LF ++ LF)); reflexivity.
Qed.

Lemma for_each_run_typed (codec : ascii -> bool) (other : Json -> string)
    (ps : list string) (items : list Json) (libs : list Library) (w : World) :
  Forall2 (fun v lib => library_of_json v = Some lib) items libs ->
  for_each_run (body_run codec other ps) items w
  = lift (for_each (body codec ps) libs) w.
Proof.
  intros H. revert w. induction H as [|v lib items libs Hv _ IH]; intros w.
  - reflexivity.
  - simpl. unfold bind_run. rewrite (body_run_typed _ _ _ _ _ _ Hv).
    unfold lift, bind. destruct (body codec ps lib w) as [[[]|c|e] w']; try reflexivity.
    rewrite IH. reflexivity.
Qed.

Lemma write_report_run_typed (codec : ascii -> bool) (other : Json -> string)
    (ps : list string) (doc : Json) (b : Bundle) (w : World) :
  bundle_of_json doc = Some b ->
  write_report_run codec other ps doc w
  = lift (write_report codec ps (third_party_libraries b)) w.
Proof.
  unfold bundle_of_json. intros H.
  destruct (subscript doc "third_party_libraries") as [|[| | | |l|]] eqn:Hsub;
    try discriminate.
  destruct (traverse library_of_json l) as [libs|] eqn:Hlibs; [|discriminate].
  injection H as <-. apply traverse_Forall2 in Hlibs.
  unfold write_report_run, write_report, bind_run, bind, lift, open_w, f_write.
  rewrite !header_encodable, Hsub. cbn [eval iter].
  rewrite (for_each_run_typed codec other ps _ _ _ Hlibs).
  reflexivity.
Qed.

(** ** Any document *)

Lemma subscript_error (v : Json) (k : string) (e : PyError) :
  subscript v k = inl e -> shape_error e.
Proof.
  unfold subscript, shape_error.
  destruct v as [| | | | |kv]; try (intros H; injection H as <-; now left).
  destruct (member k kv); [discriminate|].
  intros H; injection H as <-. right. now exists k.
Qed.

Lemma iter_error (v : Json) (e : PyError) : iter v = inl e -> shape_error e.
Proof.
  unfold shape_error.
  destruct v; simpl; try discriminate; intros H; injection H as <-; now left.
Qed.

Lemma len_error (v : Json) (e : PyError) : len v = inl e -> shape_error e.
Proof.
  unfold shape_error.
  destruct v; simpl; try discriminate; intros H; injection H as <-; now left.
Qed.

Lemma filter_license_error (p : string) (xs : list Json) (e : PyError) :
  filter_license p xs = inl e -> shape_error e.
Proof.
  induction xs as [|x xs IH]; simpl; [discriminate|].
  destruct (subscript x "license") as [e'|v] eqn:Hx.
  - intros H; injection H as <-. exact (subscript_error _ _ _ Hx).
  - destruct (filter_license p xs) as [e'|r]; [|discriminate].
    intros H; injection H as <-. now apply IH.
Qed.

(** What [filter] keeps are the items of the list, in their order, whose
    value under [license] is the string [p]. *)
Lemma filter_license_kept (p : string) (xs fs : list Json) :
  filter_license p xs = inr fs ->
  Forall (fun x => subscript x "license" = inr (JStr p)) fs.
Proof.
  revert fs. induction xs as [|x xs IH]; simpl; intros fs H.
  - injection H as <-. constructor.
  - destruct (subscript x "license") as [e'|v] eqn:Hx; [discriminate|].
    destruct (filter_license p xs) as [e'|r]; [discriminate|].
    injection H as <-. specialize (IH r eq_refl).
    destruct v as [| | |s| |]; simpl; try exact IH.
    destruct (String.eqb_spec s p) as [-> | _]; [|exact IH].
    now constructor.
Qed.

Lemma select_run_error (ps : list string) (v : Json) (e : PyError) :
  select_run ps v = inl e -> shape_error e.
Proof.
  induction ps as [|p ps IH]; simpl; [discriminate|].
  destruct (iter v) as [e'|xs] eqn:Hv.
  - intros H; injection H as <-. exact (iter_error _ _ Hv).
  - destruct (filter_license p xs) as [e'|[|x r]] eqn:Hf.
    + intros H; injection H as <-. exact (filter_license_error _ _ _ Hf).
    + exact IH.
    + destruct (subscript x "license") as [e'|pl] eqn:Hpl.
      * intros H; injection H as <-. exact (subscript_error _ _ _ Hpl).
      * destruct (subscript x "text") as [e'|lt] eqn:Hlt; [|discriminate].
        intros H; injection H as <-. exact (subscript_error _ _ _ Hlt).
Qed.

(** The first value [select_run] gives is the empty string or an
    identifier of the allow-list. *)
Lemma select_run_license (ps : list string) (v pl lt : Json) :
  select_run ps v = inr (pl, lt) ->
  pl = JStr "" \/ exists p, In p ps /\ pl = JStr p.
Proof.
  induction ps as [|p ps IH]; simpl.
  - intros H; injection H as <- _. now left.
  - destruct (iter v) as [e'|xs]; [discriminate|].
    destruct (filter_license p xs) as [e'|[|x r]] eqn:Hf; [discriminate| |].
    + intros H. destruct (IH H) as [Hl | (q & Hq & Hl)]; [now left|].
      right. exists q. split; [now right | exact Hl].
    + apply filter_license_kept in Hf. inversion Hf as [|? ? Hx _]; subst.
      rewrite Hx. destruct (subscript x "text"); [discriminate|].
      intros H; injection H as <- _. right. exists p. split; [now left | reflexivity].
Qed.

Lemma three_writes_run (codec : ascii -> bool) (e : Entry) (w : World) :
  (lift (f_write codec ("## " ++ entry_package e ++ LF ++ LF)) ;;
   lift (f_write codec (entry_license e ++ LF ++ LF)) ;;
   lift (f_write codec (entry_text e ++ LF ++ LF ++ LF))) w
  = if writable codec e
    then (Returned tt,
          {| out_file := option_map (fun c => c ++ render e) (out_file w);
             err := err w |})
    else (Raised (Early UnicodeEncodeError),
          {| out_file := option_map (fun c => c ++ begun codec e) (out_file w);
             err := err w |}).
Proof.
  unfold bind_run, lift, f_write, writable, begun, render.
  destruct (encodable codec ("## " ++ entry_package e ++ LF ++ LF)); cbn [andb].
  - destruct (encodable codec (entry_license e ++ LF ++ LF)); cbn [andb out_file err].
    + destruct (encodable codec (entry_text e ++ LF ++ LF ++ LF)); cbn [out_file err];
        destruct (out_file w) as [x|]; cbn [option_map]; try reflexivity;
        now rewrite !append_assoc.
    + destruct (out_file w) as [x|]; cbn [option_map]; try reflexivity.
      now rewrite append_nil_r.
  - now rewrite world_append_nil.
Qed.

(** One pass of the loop on any value: a whole block with an identifier of
    the allow-list; or one of the two lines and [sys.exit(1)]; or an
    exception of the shape with nothing written or printed; or the
    exception of a write, with the beginning of a block in the file. *)
Lemma body_run_cases (codec : ascii -> bool) (other : Json -> string)
    (ps : list string) (v : Json) (w : World) :
  (exists e,
     body_run codec other ps v w
     = (Returned tt,
        {| out_file := option_map (fun c => c ++ render e) (out_file w);
           err := err w |})
     /\ In (entry_license e) ps /\ entry_license e <> "")
  \/ (exists n,
        body_run codec other ps v w
        = (Exited 1,
           {| out_file := out_file w;
              err := err w ++ ("Error: " ++ n ++ " has no licenses") ++ LF |}))
  \/ (exists n,
        body_run codec other ps v w
        = (Exited 1,
           {| out_file := out_file w;
              err := err w ++ ("Error: " ++ n ++ " has no permissible licenses")
                           ++ LF |}))
  \/ (exists e, body_run codec other ps v w = (Raised e, w) /\ shape_error e)
  \/ (exists e,
        body_run codec other ps v w
        = (Raised (Early UnicodeEncodeError),
           {| out_file := option_map (fun c => c ++ begun codec e) (out_file w);
              err := err w |})
        /\ In (entry_license e) ps /\ entry_license e <> "").
Proof.
  unfold body_run, bind_run, eval.
  destruct (subscript v "package_name") as [e|name] eqn:Hname.
  { do 3 right. left. exists e.
    split; [reflexivity | exact (subscript_error _ _ _ Hname)]. }
  destruct (subscript v "licenses") as [e|ls] eqn:Hls.
  { do 3 right. left. exists e.
    split; [reflexivity | exact (subscript_error _ _ _ Hls)]. }
  destruct (len ls) as [e|n] eqn:Hlen.
  { do 3 right. left. exists e.
    split; [reflexivity | exact (len_error _ _ Hlen)]. }
  destruct n as [|n]; cbn [Nat.eqb].
  { right. left. exists (fmt other name). reflexivity. }
  cbn [ret_run].
  destruct (select_run ps ls) as [e|[pl lt]] eqn:Hsel.
  { do 3 right. left. exists e.
    split; [reflexivity | exact (select_run_error _ _ _ Hsel)]. }
  cbn [fst snd].
  destruct (select_run_license _ _ _ _ Hsel) as [-> | (p & Hp & ->)].
  { right. right. left. exists (fmt other name). reflexivity. }
  cbn [eq_str fmt]. destruct (String.eqb_spec p "") as [-> | Hne].
  { right. right. left. exists (fmt other name). reflexivity. }
  pose proof (three_writes_run codec
                {| entry_package := fmt other name; entry_license := p;
                   entry_text := fmt other lt |} w) as H3.
  destruct (writable codec _).
  - left. eexists. split; [exact H3|]. now split.
  - do 4 right. eexists. split; [exact H3|]. now split.
Qed.

(** The loop on any list of values: whole blocks for the values before the
    one that stops it, then the outcome of that one. *)
Lemma for_each_run_cases (codec : ascii -> bool) (other : Json -> string)
    (ps : list string) (items : list Json) (w : World) :
  exists es part,
    Forall (fun e => In (entry_license e) ps /\ entry_license e <> "") es
    /\ out_file (snd (for_each_run (body_run codec other ps) items w))
       = option_map (fun c => c ++ cat (map render es) ++ part) (out_file w)
    /\ ((fst (for_each_run (body_run codec other ps) items w) = Returned tt
         /\ err (snd (for_each_run (body_run codec other ps) items w)) = err w
         /\ part = "")
        \/ (fst (for_each_run (body_run codec other ps) items w) = Exited 1
            /\ (exists n,
                  err (snd (for_each_run (body_run codec other ps) items w))
                  = err w ++ ("Error: " ++ n ++ " has no licenses") ++ LF
                  \/ err (snd (for_each_run (body_run codec other ps) items w))
                     = err w
                       ++ ("Error: " ++ n ++ " has no permissible licenses")
                       ++ LF)
            /\ part = "")
        \/ (exists e,
              fst (for_each_run (body_run codec other ps) items w) = Raised e
              /\ shape_error e
              /\ err (snd (for_each_run (body_run codec other ps) items w)) = err w
              /\ part = "")
        \/ (fst (for_each_run (body_run codec other ps) items w)
            = Raised (Early UnicodeEncodeError)
            /\ err (snd (for_each_run (body_run codec other ps) items w)) = err w
            /\ exists e,
                 In (entry_license e) ps /\ entry_license e <> ""
                 /\ part = begun codec e)).
Proof.
  assert (Hnil : forall w0 : World,
            out_file w0
            = option_map (fun c => c ++ cat (map render []) ++ "") (out_file w0)).
  { intros w0. cbn [map cat fold_right].
    destruct (out_file w0); cbn [option_map]; [|reflexivity].
    now rewrite append_nil_r. }
  revert w. induction items as [|v items IH]; intros w.
  - exists [], "". split; [constructor|]. split; [apply Hnil|].
    left. now repeat split.
  - cbn [for_each_run]. unfold bind_run.
    destruct (body_run_cases codec other ps v w)
      as [(e & -> & He) | [(n & ->) | [(n & ->) | [(e & -> & He)
                                                  | (e & -> & He)]]]].
    + destruct (IH {| out_file := option_map (fun c => c ++ render e) (out_file w);
                      err := err w |}) as (es & part & Hes & Hfile & Hout).
      exists (e :: es), part. split; [now constructor|]. split.
      * rewrite Hfile. cbn [out_file map cat fold_right].
        destruct (out_file w); cbn [option_map]; [|reflexivity].
        now rewrite !append_assoc.
      * exact Hout.
    + exists [], "". split; [constructor|].
      split; [cbn [snd out_file]; apply Hnil|].
      right. left. split; [reflexivity|]. split; [|reflexivity].
      exists n. now left.
    + exists [], "". split; [constructor|].
      split; [cbn [snd out_file]; apply Hnil|].
      right. left. split; [reflexivity|]. split; [|reflexivity].
      exists n. now right.
    + exists [], "". split; [constructor|].
      split; [cbn [snd out_file]; apply Hnil|].
      right. right. left. exists e. now repeat split.
    + exists [], (begun codec e). split; [constructor|]. split; [reflexivity|].
      do 3 right. split; [reflexivity|]. split; [reflexivity|]. now exists e.
Qed.

Lemma write_report_run_cases (codec : ascii -> bool) (other : Json -> string)
    (ps : list string) (doc : Json) (w : World) :
  exists es part,
    Forall (fun e => In (entry_license e) ps /\ entry_license e <> "") es
    /\ out_file (snd (write_report_run codec other ps doc w))
       = Some (header ++ cat (map render es) ++ part)
    /\ ((fst (write_report_run codec other ps doc w) = Returned tt
         /\ err (snd (write_report_run codec other ps doc w)) = err w
         /\ part = "")
        \/ (fst (write_report_run codec other ps doc w) = Exited 1
            /\ (exists n,
                  err (snd (write_report_run codec other ps doc w))
                  = err w ++ ("Error: " ++ n ++ " has no licenses") ++ LF
                  \/ err (snd (write_report_run codec other ps doc w))
                     = err w
                       ++ ("Error: " ++ n ++ " has no permissible licenses")
                       ++ LF)
            /\ part = "")
        \/ (exists e,
              fst (write_report_run codec other ps doc w) = Raised e
              /\ shape_error e
              /\ err (snd (write_report_run codec other ps doc w)) = err w
              /\ part = "")
        \/ (fst (write_report_run codec other ps doc w)
            = Raised (Early UnicodeEncodeError)
            /\ err (snd (write_report_run codec other ps doc w)) = err w
            /\ exists e,
                 In (entry_license e) ps /\ entry_license e <> ""
                 /\ part = begun codec e)).
Proof.
  unfold write_report_run, bind_run, lift, open_w, f_write.
  rewrite header_encodable. cbn [out_file err option_map]. unfold eval.
  destruct (subscript doc "third_party_libraries") as [e|libs] eqn:Hsub.
  { exists [], "". split; [constructor|]. split.
    - cbn [snd out_file map cat fold_right]. now rewrite append_nil_r.
    - right. right. left. exists e. repeat split.
      exact (subscript_error _ _ _ Hsub). }
  destruct (iter libs) as [e|items] eqn:Hiter.
  { exists [], "". split; [constructor|]. split.
    - cbn [snd out_file map cat fold_right]. now rewrite append_nil_r.
    - right. right. left. exists e. repeat split.
      exact (iter_error _ _ Hiter). }
  destruct (for_each_run_cases codec other ps items
              {| out_file := Some ("" ++ header); err := err w |})
    as (es & part & Hes & Hfile & Hout).
  exists es, part. split; [exact Hes|]. split; [exact Hfile|]. exact Hout.
Qed.

(** ** Further properties of the script *)

(** X1.  On a document of the shape the command prints (an object with a
    list under [third_party_libraries], each item an object with a string
    under [package_name] and a list under [licenses] of objects with strings
    under [license] and [text], other keys allowed), the script on the
    untyped document does what the typed script does on the decoded
    records: same outcome, same file, same text on standard error. *)
Theorem script_run_typed (codec : ascii -> bool) (other : Json -> string)
    (ps : list string) (json_loads : string -> option Json)
    (cp : CompletedProcess) (w : World) :
  (forall doc, json_loads (stdout cp) = Some doc -> bundle_of_json doc <> None) ->
  script_run codec other ps json_loads cp w
  = lift (script codec ps (typed_loads json_loads) cp) w.
Proof.
  intros Hshape. unfold script_run, script, typed_loads, bind_run.
  unfold lift at 1. unfold bind, eval, ret_run, ret, raise.
  destruct (Z.eqb (returncode cp) 0); [|reflexivity].
  destruct (json_loads (stdout cp)) as [doc|]; [|reflexivity].
  destruct (bundle_of_json doc) as [b|] eqn:Hb.
  - rewrite (write_report_run_typed codec other ps doc b w Hb). reflexivity.
  - exfalso. now apply (Hshape doc).
Qed.

Lemma script_run_typed_witness :
  script_run ascii_only no_text permissible_licenses
             (fun _ => Some sample_document) success stale
  = lift (script ascii_only permissible_licenses
                 (typed_loads (fun _ => Some sample_document)) success) stale.
Proof.
  apply (script_run_typed ascii_only no_text permissible_licenses
           (fun _ => Some sample_document) success stale).
  intros doc H. injection H as <-. vm_compute. discriminate.
Defined.

(** X2.  Whatever the document, once the file is open it holds the header,
    then whole blocks, each with an identifier of the allow-list, not the
    empty one, on its license line, and nothing more unless a write raised:
    [sys.exit], [KeyError] and [TypeError] never leave part of a block
    behind, and a write that raises leaves the beginning of one block, its
    heading or its heading and license line. *)
Theorem report_run_whole_blocks (codec : ascii -> bool) (other : Json -> string)
    (ps : list string) (doc : Json) (w : World) :
  exists es part,
    out_file (snd (write_report_run codec other ps doc w))
    = Some (header ++ cat (map render es) ++ part)
    /\ Forall (fun e => In (entry_license e) ps /\ entry_license e <> "") es
    /\ (part = ""
        \/ (fst (write_report_run codec other ps doc w)
            = Raised (Early UnicodeEncodeError)
            /\ exists e,
                 In (entry_license e) ps /\ entry_license e <> ""
                 /\ part = begun codec e)).
Proof.
  destruct (write_report_run_cases codec other ps doc w)
    as (es & part & Hes & Hfile & Hout).
  exists es, part. split; [exact Hfile|]. split; [exact Hes|].
  destruct Hout as [(_ & _ & ->) | [(_ & _ & ->) | [(e & _ & _ & _ & ->)
                                                   | (Hr & _ & He)]]];
    try (now left).
  right. now split.
Qed.

(** X3.  Whatever the document, the [with] block ends in one of four ways:
    normally, with nothing printed; by [sys.exit(1)], with exactly one line
    printed, of one of the two forms; by a [KeyError] or [TypeError], with
    nothing printed by the script; or by the [UnicodeEncodeError] of a
    write, with nothing printed by the script.  The exit status is 0 in the
    first case and 1 in the other three. *)
Theorem report_run_outcomes (codec : ascii -> bool) (other : Json -> string)
    (ps : list string) (doc : Json) (w : World) :
  (fst (write_report_run codec other ps doc w) = Returned tt
   /\ err (snd (write_report_run codec other ps doc w)) = err w
   /\ exit_status_run (fst (write_report_run codec other ps doc w)) = 0%Z)
  \/ (fst (write_report_run codec other ps doc w) = Exited 1
      /\ (exists n,
            err (snd (write_report_run codec other ps doc w))
            = err w ++ ("Error: " ++ n ++ " has no licenses") ++ LF
            \/ err (snd (write_report_run codec other ps doc w))
               = err w ++ ("Error: " ++ n ++ " has no permissible licenses")
                       ++ LF)
      /\ exit_status_run (fst (write_report_run codec other ps doc w)) = 1%Z)
  \/ (exists e,
        fst (write_report_run codec other ps doc w) = Raised e
        /\ shape_error e
        /\ err (snd (write_report_run codec other ps doc w)) = err w
        /\ exit_status_run (fst (write_report_run codec other ps doc w)) = 1%Z)
  \/ (fst (write_report_run codec other ps doc w)
      = Raised (Early UnicodeEncodeError)
      /\ err (snd (write_report_run codec other ps doc w)) = err w
      /\ exit_status_run (fst (write_report_run codec other ps doc w)) = 1%Z).
Proof.
  destruct (write_report_run_cases codec other ps doc w)
    as (_ & _ & _ & _ & [(Hr & Herr & _) | [(Hr & Hn & _)
                        | [(e & Hr & He & Herr & _) | (Hr & Herr & _)]]]).
  - left. rewrite Hr. now repeat split.
  - right. left. rewrite Hr. now repeat split.
  - right. right. left. exists e. rewrite Hr. now repeat split.
  - do 3 right. rewrite Hr. now repeat split.
Qed.

(** X4.  When the command succeeded and its output parsed, but the document
    has no key [third_party_libraries] (or is no object at all), the script
    ends by the exception of that subscript with exit status 1, and the
    file, whatever it held, holds the header alone: unlike a failure of the
    command or of the parser, this one costs the earlier report. *)
Theorem missing_libraries_key (codec : ascii -> bool) (other : Json -> string)
    (ps : list string) (json_loads : string -> option Json)
    (cp : CompletedProcess) (doc : Json) (e : PyError) (w : World) :
  returncode cp = 0%Z ->
  json_loads (stdout cp) = Some doc ->
  subscript doc "third_party_libraries" = inl e ->
  script_run codec other ps json_loads cp w
  = (Raised e, {| out_file := Some header; err := err w |})
  /\ exit_status_run (fst (script_run codec other ps json_loads cp w)) = 1%Z
  /\ (forall kv, doc = JObj kv -> e = KeyError "third_party_libraries").
Proof.
  intros Hrc Hdoc Hsub.
  assert (Hrun : script_run codec other ps json_loads cp w
                 = (Raised e, {| out_file := Some header; err := err w |})).
  { unfold script_run, bind_run. rewrite Hrc, Hdoc. cbn [Z.eqb ret_run].
    unfold write_report_run, bind_run, lift, open_w, f_write.
    rewrite header_encodable, Hsub. reflexivity. }
  rewrite Hrun. repeat split.
  intros kv ->. simpl in Hsub.
  destruct (member "third_party_libraries" kv); [discriminate|].
  now injection Hsub as <-.
Qed.

Lemma missing_libraries_key_witness :
  script_run ascii_only no_text permissible_licenses
             (fun _ => Some keyless_document) success stale
  = (Raised (KeyError "third_party_libraries"),
     {| out_file := Some header; err := err stale |})
  /\ exit_status_run
       (fst (script_run ascii_only no_text permissible_licenses
                        (fun _ => Some keyless_document) success stale))
     = 1%Z
  /\ (forall kv, keyless_document = JObj kv ->
                 KeyError "third_party_libraries"
                 = KeyError "third_party_libraries").
Proof.
  apply (missing_libraries_key ascii_only no_text permissible_licenses
           (fun _ => Some keyless_document) success keyless_document
           (KeyError "third_party_libraries") stale); reflexivity.
Defined.

Lemma filter_license_raises (p : string) (pre : list Json) (x : Json)
    (post : list Json) (e : PyError) :
  Forall (fun y => exists v, subscript y "license" = inr v) pre ->
  subscript x "license" = inl e ->
  filter_license p (pre ++ x :: post)%list = inl e.
Proof.
  intros Hpre Hx. induction Hpre as [|y pre (v & Hy) _ IH]; simpl.
  - now rewrite Hx.
  - now rewrite Hy, IH.
Qed.

(** X5.  The filter of line 23 reads the key [license] of every entry of
    the dependency: with an allow-list that is not empty, the first entry
    without that key (or that is no object) makes the pass raise, with
    nothing written or printed, whatever the other entries are, an entry
    with a permissible license before it included. *)
Theorem malformed_entry_raises (codec : ascii -> bool) (other : Json -> string)
    (p : string) (ps : list string) (lib name : Json) (pre : list Json)
    (x : Json) (post : list Json) (e : PyError) (w : World) :
  subscript lib "package_name" = inr name ->
  subscript lib "licenses" = inr (JArr (pre ++ x :: post)%list) ->
  Forall (fun y => exists v, subscript y "license" = inr v) pre ->
  subscript x "license" = inl e ->
  body_run codec other (p :: ps) lib w = (Raised e, w).
Proof.
  intros Hname Hls Hpre Hx.
  unfold body_run, bind_run, eval. rewrite Hname, Hls. cbn [len].
  rewrite length_app. cbn [length]. rewrite Nat.add_succ_r. cbn [Nat.eqb ret_run].
  cbn [select_run iter]. now rewrite (filter_license_raises p pre x post e Hpre Hx).
Qed.

Lemma malformed_entry_raises_witness :
  body_run ascii_only no_text permissible_licenses odd_library stale
  = (Raised TypeError, stale).
Proof.
  apply (malformed_entry_raises ascii_only no_text "MIT" [] odd_library
           (JStr "odd") [mit_json] JNull [] TypeError stale).
  - reflexivity.
  - reflexivity.
  - constructor; [|constructor]. now exists (JStr "MIT").
  - reflexivity.
Defined.

(** X6.  When the loop of line 13 has nothing to go over (the value under
    [third_party_libraries] is an empty list; an empty object or an empty
    string too), the script ends normally with exit status 0, prints
    nothing, and the file, whatever it held, holds the header alone. *)
Theorem no_dependencies_header_only (codec : ascii -> bool)
    (other : Json -> string) (json_loads : string -> option Json)
    (cp : CompletedProcess) (doc libs : Json) (w : World) :
  returncode cp = 0%Z ->
  json_loads (stdout cp) = Some doc ->
  subscript doc "third_party_libraries" = inr libs ->
  iter libs = inr [] ->
  main_run codec other json_loads cp w
  = (Returned tt, {| out_file := Some header; err := err w |})
  /\ exit_status_run (fst (main_run codec other json_loads cp w)) = 0%Z.
Proof.
  intros Hrc Hdoc Hsub Hiter.
  assert (Hrun : main_run codec other json_loads cp w
                 = (Returned tt, {| out_file := Some header; err := err w |})).
  { unfold main_run, script_run, bind_run. rewrite Hrc, Hdoc. cbn [Z.eqb ret_run].
    unfold write_report_run, bind_run, lift, open_w, f_write.
    rewrite header_encodable, Hsub. cbn [eval]. rewrite Hiter. reflexivity. }
  rewrite Hrun. now split.
Qed.

Lemma no_dependencies_header_only_witness :
  main_run ascii_only no_text (fun _ => Some empty_document) success stale
  = (Returned tt, {| out_file := Some header; err := err stale |})
  /\ exit_status_run
       (fst (main_run ascii_only no_text (fun _ => Some empty_document)
                      success stale))
     = 0%Z.
Proof.
  apply (no_dependencies_header_only ascii_only no_text
           (fun _ => Some empty_document)
           success empty_document (JArr []) stale); reflexivity.
Defined.

(** * Further properties of the typed script *)

Lemma permitted_mit (lib : Library) :
  permitted permissible_licenses lib
  <-> exists e, In e (licenses lib) /\ license e = "MIT".
Proof.
  unfold permitted, permissible_licenses.
  split; intros (e & He & Hl); exists e; (split; [exact He|]).
  - destruct Hl as [Hl | []]. now symmetry.
  - left. now symmetry.
Qed.

Lemma exit_status_lift {A : Type} (m : Script A) (w : World) :
  exit_status_run (fst (lift m w)) = exit_status (fst (m w)).
Proof. unfold lift. now destruct (m w) as [[a|c|e] w']. Qed.

(** X7.  On a document of the shape the command prints, parsed after a
    command that returned 0, the script as shipped exits with status 0
    exactly when every dependency has a license entry whose identifier is
    the string [MIT] and the three writes of its block find their text in
    the encoding of the file. *)
Theorem main_exit_zero_iff (codec : ascii -> bool) (other : Json -> string)
    (json_loads : string -> option Json) (cp : CompletedProcess) (doc : Json)
    (b : Bundle) (w : World) :
  returncode cp = 0%Z ->
  json_loads (stdout cp) = Some doc ->
  bundle_of_json doc = Some b ->
  (exit_status_run (fst (main_run codec other json_loads cp w)) = 0%Z
   <-> Forall (fun lib =>
                 (exists e, In e (licenses lib) /\ license e = "MIT")
                 /\ writable codec (entry_of permissible_licenses lib) = true)
              (third_party_libraries b)).
Proof.
  intros Hrc Hdoc Hb.
  assert (Hrun : main_run codec other json_loads cp w
                 = lift (write_report codec permissible_licenses
                                      (third_party_libraries b)) w).
  { unfold main_run, script_run, bind_run. rewrite Hrc, Hdoc. cbn [Z.eqb ret_run].
    now apply write_report_run_typed. }
  rewrite Hrun, exit_status_lift.
  assert (Hiff : forallb (completes codec permissible_licenses)
                         (third_party_libraries b) = true
                 <-> Forall (fun lib =>
                       (exists e, In e (licenses lib) /\ license e = "MIT")
                       /\ writable codec (entry_of permissible_licenses lib) = true)
                      (third_party_libraries b)).
  { rewrite forallb_forall, Forall_forall. unfold completes.
    split; intros H lib Hlib; specialize (H lib Hlib).
    - apply andb_true_iff in H as [Hp Hw]. split; [|exact Hw].
      apply permitted_mit.
      now apply (passes_permitted _ _ permissible_licenses_named).
    - destruct H as [Hmit Hw]. apply andb_true_iff. split; [|exact Hw].
      apply (passes_permitted _ _ permissible_licenses_named).
      now apply permitted_mit. }
  rewrite <- Hiff.
  destruct (write_report_cases codec permissible_licenses
              (third_party_libraries b) w)
    as [(Hall & ->) | [(pre & bad & rest & Hsplit & Hpre & Hp & ->)
                     | (pre & bad & rest & Hsplit & Hpre & Hp & Hw & ->)]];
    cbn [fst exit_status].
  - now split.
  - split; [discriminate|]. intros Hall. exfalso.
    rewrite Hsplit, forallb_app in Hall. apply andb_true_iff in Hall as [_ Hall].
    simpl in Hall. unfold completes in Hall. rewrite Hp in Hall. discriminate.
  - split; [discriminate|]. intros Hall. exfalso.
    rewrite Hsplit, forallb_app in Hall. apply andb_true_iff in Hall as [_ Hall].
    simpl in Hall. unfold completes in Hall. rewrite Hp, Hw in Hall. discriminate.
Qed.

Lemma main_exit_zero_iff_witness :
  exit_status_run
    (fst (main_run ascii_only no_text (fun _ => Some cafe_document) success stale))
  = 0%Z
  <-> Forall (fun lib =>
                (exists e, In e (licenses lib) /\ license e = "MIT")
                /\ writable ascii_only (entry_of permissible_licenses lib) = true)
             (third_party_libraries {| third_party_libraries := [cafe] |}).
Proof.
  apply (main_exit_zero_iff ascii_only no_text (fun _ => Some cafe_document)
           success cafe_document {| third_party_libraries := [cafe] |} stale);
    reflexivity.
Defined.

(** X8.  For any allow-list, the empty identifier included: a dependency
    reaches the writes exactly when the first identifier of the allow-list
    that occurs among its licenses is not the empty string.  A dependency
    whose first such identifier is empty is turned away although it has a
    license of the allow-list. *)
Theorem passes_iff_first_present_named (ps : list string) (lib : Library) :
  passes ps lib = true
  <-> exists i p,
        nth_error ps i = Some p
        /\ p <> ""
        /\ In p (map license (licenses lib))
        /\ (forall j q, j < i -> nth_error ps j = Some q ->
                        ~ In q (map license (licenses lib))).
Proof.
  unfold passes.
  pose proof (select_Selected ps (licenses lib)) as HS.
  remember (select ps (licenses lib)) as r eqn:Hr.
  destruct HS as [ps1 p ps2 pre e post Hps Hls He Hbefore _ | Hnone]; cbn [fst].
  - assert (Hin : In p (map license (licenses lib))).
    { rewrite Hls, map_app. apply in_or_app. right. now left. }
    assert (Hne : negb (Nat.eqb (length (licenses lib)) 0) = true).
    { rewrite Hls, length_app. cbn [length]. now rewrite Nat.add_succ_r. }
    rewrite Hne. cbn [andb]. rewrite negb_true_iff, String.eqb_neq.
    split.
    + intros Hp. exists (length ps1), p. repeat split; try assumption.
      * rewrite Hps, nth_error_app2, Nat.sub_diag by lia. reflexivity.
      * intros j q Hj Hq Hq'. rewrite Hps, nth_error_app1 in Hq by exact Hj.
        apply nth_error_In in Hq. apply in_map_iff in Hq' as (x & Hx & Hx').
        exact (Hbefore q Hq x Hx' Hx).
    + intros (i & p' & Hi & Hp' & Hin' & Hlow) Heq.
      destruct (Nat.lt_trichotomy i (length ps1)) as [Hlt | [Heqi | Hgt]].
      * rewrite Hps, nth_error_app1 in Hi by exact Hlt.
        apply nth_error_In in Hi. apply in_map_iff in Hin' as (x & Hx & Hx').
        exact (Hbefore p' Hi x Hx' Hx).
      * rewrite Hps, Heqi, nth_error_app2, Nat.sub_diag in Hi by lia.
        injection Hi as <-. contradiction.
      * apply (Hlow (length ps1) p Hgt); [|exact Hin].
        rewrite Hps, nth_error_app2, Nat.sub_diag by lia. reflexivity.
  - rewrite String.eqb_refl, andb_false_r. split; [discriminate|].
    intros (i & p & Hi & _ & Hin & _). exfalso.
    apply nth_error_In in Hi. apply in_map_iff in Hin as (x & Hx & Hx').
    exact (Hnone p Hi x Hx' Hx).
Qed.

Lemma filter_license_filter (keep : LicenseEntry -> bool) (p : string)
    (ls : list LicenseEntry) :
  (forall x, license x = p -> keep x = true) ->
  filter (fun x => String.eqb (license x) p) (filter keep ls)
  = filter (fun x => String.eqb (license x) p) ls.
Proof.
  intros Hkeep. induction ls as [|x ls IH]; simpl; [reflexivity|].
  destruct (String.eqb_spec (license x) p) as [Hx | Hx].
  - rewrite (Hkeep x Hx). simpl. rewrite IH.
    now destruct (String.eqb_spec (license x) p).
  - destruct (keep x); simpl; [|exact IH].
    now destruct (String.eqb_spec (license x) p).
Qed.

(** X9.  License entries whose identifier is not in the allow-list play no
    part in the choice: dropping them all from a dependency's list changes
    neither the identifier nor the text chosen. *)
Theorem select_ignores_other_licenses (ps : list string)
    (ls : list LicenseEntry) :
  select ps (filter (fun x => existsb (String.eqb (license x)) ps) ls)
  = select ps ls.
Proof.
  assert (Hgen : forall qs,
            (forall q, In q qs -> In q ps) ->
            select qs (filter (fun x => existsb (String.eqb (license x)) ps) ls)
            = select qs ls).
  { induction qs as [|q qs IH]; intros Hsub; simpl; [reflexivity|].
    rewrite filter_license_filter.
    - rewrite IH; [reflexivity|]. intros q' Hq'. apply Hsub. now right.
    - intros x Hx. apply existsb_exists. exists q. split.
      + apply Hsub. now left.
      + now apply String.eqb_eq. }
  apply Hgen. auto.
Qed.

(** What the loop does to a world, whatever the world: the outcome, the
    text put behind the file and the text printed. *)
Lemma for_each_cases (codec : ascii -> bool) (ps : list string)
    (libs : list Library) :
  exists (o : Outcome unit) (printed tail : string),
    forall w,
      for_each (body codec ps) libs w
      = (o,
         {| out_file := option_map (fun c => c ++ tail) (out_file w);
            err := err w ++ printed |}).
Proof.
  destruct (first_stop codec ps libs)
    as [Hall | (pre & bad & rest & -> & Hpre & Hbad)].
  - exists (Done tt), "", (cat (map (block ps) libs)). intros w.
    rewrite <- (app_nil_r libs) at 1.
    rewrite (for_each_prefix _ _ _ _ _ Hall). cbn [for_each ret].
    now rewrite append_nil_r.
  - unfold completes in Hbad. destruct (passes ps bad) eqn:Hp.
    + simpl in Hbad.
      exists (Uncaught UnicodeEncodeError), "",
        (cat (map (block ps) pre) ++ begun codec (entry_of ps bad)).
      intros w. rewrite (for_each_prefix _ _ _ _ _ Hpre). cbn [for_each].
      unfold bind. rewrite (body_passes _ _ _ _ Hp), Hbad.
      cbn [out_file err]. rewrite append_nil_r.
      destruct (out_file w); cbn [option_map]; [|reflexivity].
      now rewrite append_assoc.
    + exists (SystemExit 1), (diagnostic bad ++ LF), (cat (map (block ps) pre)).
      intros w. rewrite (for_each_prefix _ _ _ _ _ Hpre). cbn [for_each].
      unfold bind. now rewrite (body_fails _ _ _ _ Hp).
Qed.

(** X10.  When the run on an input ends normally, the run on that input
    with more dependencies behind it is the loop over the added
    dependencies, started in the world the first run left.  It ends as the
    run on the added dependencies alone ends, and its file is the file of
    the shorter input followed by what the run on the added dependencies
    alone puts behind the header. *)
Theorem successful_prefix_composes (codec : ascii -> bool) (ps : list string)
    (libs rest : list Library) (w : World) :
  fst (write_report codec ps libs w) = Done tt ->
  write_report codec ps (libs ++ rest)%list w
  = for_each (body codec ps) rest (snd (write_report codec ps libs w))
  /\ fst (write_report codec ps (libs ++ rest)%list w)
     = fst (write_report codec ps rest w)
  /\ exists c tail,
       out_file (snd (write_report codec ps libs w)) = Some c
       /\ out_file (snd (write_report codec ps rest w)) = Some (header ++ tail)
       /\ out_file (snd (write_report codec ps (libs ++ rest)%list w))
          = Some (c ++ tail).
Proof.
  intros Hdone. pose proof (write_report_done _ _ _ _ Hdone) as Hall.
  destruct (for_each_cases codec ps rest) as (o & printed & tail & Hrest).
  assert (Hlong : write_report codec ps (libs ++ rest)%list w
                  = for_each (body codec ps) rest
                             (snd (write_report codec ps libs w))).
  { rewrite (write_report_completes _ _ _ _ Hall). cbn [snd].
    unfold write_report, bind, open_w, f_write.
    rewrite header_encodable. cbn [out_file err option_map].
    now rewrite (for_each_prefix _ _ _ _ _ Hall). }
  assert (Halone : write_report codec ps rest w
                   = (o, {| out_file := Some (header ++ tail);
                            err := err w ++ printed |})).
  { unfold write_report, bind, open_w, f_write.
    rewrite header_encodable. cbn [out_file err option_map].
    now rewrite Hrest. }
  split; [exact Hlong|]. rewrite Hlong, Halone, Hrest.
  rewrite (write_report_completes _ _ _ _ Hall). cbn [fst snd out_file option_map].
  split; [reflexivity|].
  exists (header ++ cat (map (block ps) libs)), tail. now repeat split.
Qed.

Lemma successful_prefix_composes_witness :
  write_report ascii_only permissible_licenses ([foo; dual] ++ [cafe; foo])%list stale
  = for_each (body ascii_only permissible_licenses) [cafe; foo]
             (snd (write_report ascii_only permissible_licenses [foo; dual] stale))
  /\ fst (write_report ascii_only permissible_licenses
                       ([foo; dual] ++ [cafe; foo])%list stale)
     = fst (write_report ascii_only permissible_licenses [cafe; foo] stale)
  /\ exists c tail,
       out_file (snd (write_report ascii_only permissible_licenses
                                   [foo; dual] stale)) = Some c
       /\ out_file (snd (write_report ascii_only permissible_licenses
                                      [cafe; foo] stale))
          = Some (header ++ tail)
       /\ out_file (snd (write_report ascii_only permissible_licenses
                                      ([foo; dual] ++ [cafe; foo])%list stale))
          = Some (c ++ tail).
Proof.
  apply (successful_prefix_composes ascii_only permissible_licenses
           [foo; dual] [cafe; foo] stale).
  reflexivity.
Defined.

(** X11.  The report does not determine the input: the license text is
    written as it is, so, whenever the run on two dependencies ends
    normally, one dependency whose text goes on with the heading line, the
    identifier line and the text of the second gives the same run and, byte
    for byte, the same file. *)
Theorem report_text_ambiguous (codec : ascii -> bool) (n1 n2 t1 t2 : string)
    (w : World) :
  fst (write_report codec permissible_licenses
         [{| package_name := n1;
             licenses := [{| license := "MIT"; text := t1 |}] |};
          {| package_name := n2;
             licenses := [{| license := "MIT"; text := t2 |}] |}] w)
  = Done tt ->
  write_report codec permissible_licenses
    [{| package_name := n1;
        licenses :=
          [{| license := "MIT";
              text := t1 ++ LF ++ LF ++ LF
                      ++ "## " ++ n2 ++ LF ++ LF
                      ++ "MIT" ++ LF ++ LF
                      ++ t2 |}] |}] w
  = write_report codec permissible_licenses
      [{| package_name := n1; licenses := [{| license := "MIT"; text := t1 |}] |};
       {| package_name := n2; licenses := [{| license := "MIT"; text := t2 |}] |}]
      w.
Proof.
  intros Hdone. pose proof (write_report_done _ _ _ _ Hdone) as Hall.
  assert (Hone : forallb (completes codec permissible_licenses)
            [{| package_name := n1;
                licenses :=
                  [{| license := "MIT";
                      text := t1 ++ LF ++ LF ++ LF
                              ++ "## " ++ n2 ++ LF ++ LF
                              ++ "MIT" ++ LF ++ LF
                              ++ t2 |}] |}] = true).
  { revert Hall. unfold completes, writable, entry_of, passes.
    simpl. rewrite ?encodable_app. simpl. rewrite ?encodable_app. simpl.
    destruct (encodable codec n1), (encodable codec n2),
      (encodable codec t1), (encodable codec t2); simpl; intros H;
      try discriminate H; reflexivity. }
  rewrite (write_report_completes _ _ _ _ Hall),
    (write_report_completes _ _ _ _ Hone).
  do 3 f_equal. unfold block. cbn [map cat fold_right licenses package_name].
  cbn [select permissible_licenses filter license text String.eqb Ascii.eqb
       Bool.eqb].
  rewrite !append_assoc. reflexivity.
Qed.

Lemma report_text_ambiguous_witness :
  write_report ascii_only permissible_licenses
    [{| package_name := "one";
        licenses :=
          [{| license := "MIT";
              text := "ONE" ++ LF ++ LF ++ LF
                      ++ "## " ++ "two" ++ LF ++ LF
                      ++ "MIT" ++ LF ++ LF
                      ++ "TWO" |}] |}] stale
  = write_report ascii_only permissible_licenses
      [{| package_name := "one";
          licenses := [{| license := "MIT"; text := "ONE" |}] |};
       {| package_name := "two";
          licenses := [{| license := "MIT"; text := "TWO" |}] |}]
      stale.
Proof.
  apply (report_text_ambiguous ascii_only "one" "two" "ONE" "TWO" stale).
  reflexivity.
Defined.
